(** * KiCad project export: S-expression parser and project collector

    A shallow embedding of [plugin/kicad_parser.py],
    [plugin/project_collector.py] and [plugin/zip_exporter.py], followed
    by the properties established about them.

    Python strings are modelled as [string]; the parser only ever inspects
    the characters space, tab, newline, carriage return, the two
    parentheses, the double quote and the backslash.  Python sets and
    dictionaries keyed by paths are modelled as [gset] and [gmap]. *)

From stdpp Require Import gmap strings list fin_maps fin_sets sorting.
From Stdlib Require Import Ascii String.

Local Open Scope string_scope.
Local Open Scope list_scope.

(** ** Python string primitives *)

Module PyStr.

(** [s.startswith(p)] *)
Definition startswith (p s : string) : bool := String.prefix p s.

(** Last character of a string, if any. *)
Fixpoint last_char (s : string) : option ascii :=
  match s with
  | EmptyString => None
  | String c EmptyString => Some c
  | String _ r => last_char r
  end.

(** [s.endswith(c)] for a one-character suffix. *)
Definition endswith_char (c : ascii) (s : string) : bool :=
  match last_char s with
  | Some d => Ascii.eqb c d
  | None => false
  end.

(** [s[:-1]] *)
Fixpoint drop_last (s : string) : string :=
  match s with
  | EmptyString => EmptyString
  | String _ EmptyString => EmptyString
  | String c r => String c (drop_last r)
  end.

(** [s[1:]] *)
Definition drop_first (s : string) : string :=
  match s with
  | EmptyString => EmptyString
  | String _ r => r
  end.

(** [s[1:-1]] *)
Definition strip_ends (s : string) : string := drop_last (drop_first s).

(** [s.replace(old, new)] for a non-empty [old]: occurrences are found
    left to right and do not overlap.  [skip] counts the characters of a
    match that are still to be dropped. *)
Fixpoint replace_from (old new : string) (skip : nat) (s : string) : string :=
  match s with
  | EmptyString => EmptyString
  | String c r =>
      match skip with
      | S k => replace_from old new k r
      | O =>
          if String.prefix old s
          then new +:+ replace_from old new (String.length old - 1) r
          else String c (replace_from old new 0 r)
      end
  end.

Definition replace (old new s : string) : string := replace_from old new 0 s.

End PyStr.

(** ** The parsed tree: [SExpr = Union[str, List[SExpr]]] *)

#[warnings="-register-all"]
Inductive SExpr : Type :=
| Atom (value : string)
| SList (items : list SExpr).

Definition backslash : ascii := "092"%char.
Definition dquote : ascii := "034"%char.

(** A string made of one double quote, and of one backslash. *)
Definition DQ : string := String dquote EmptyString.
Definition BS : string := String backslash EmptyString.

(** ** [_tokenize] *)

(** The test [char in whitespace]: space, tab, newline, carriage return. *)
Definition is_space (c : ascii) : bool :=
  Ascii.eqb c " " || Ascii.eqb c "009" || Ascii.eqb c "010" || Ascii.eqb c "013".

(** The characters that end an unquoted atom: whitespace, the two
    parentheses and the double quote. *)
Definition is_delimiter (c : ascii) : bool :=
  is_space c || Ascii.eqb c "(" || Ascii.eqb c ")" || Ascii.eqb c dquote.

(** The inner loop of the quoted-string case, run on [text[i+1:]].  It
    returns the part of the token after the opening quote, [text[i+1:j+1]],
    and the text left, [text[j+1:]].  A backslash moves [j] by two, a quote
    stops the loop, the end of the text stops it too (the slice is then
    clipped). *)
Fixpoint scan_quoted (s : string) : string * string :=
  match s with
  | EmptyString => (EmptyString, EmptyString)
  | String c r =>
      if Ascii.eqb c backslash then
        match r with
        | EmptyString => (String c EmptyString, EmptyString)
        | String d r' =>
            let '(tok, rest) := scan_quoted r' in (String c (String d tok), rest)
        end
      else if Ascii.eqb c dquote then (String c EmptyString, r)
      else let '(tok, rest) := scan_quoted r in (String c tok, rest)
  end.

(** The inner loop of the unquoted-atom case, run on [text[i:]]: returns
    [text[i:j]] and [text[j:]]. *)
Fixpoint scan_atom (s : string) : string * string :=
  match s with
  | EmptyString => (EmptyString, EmptyString)
  | String c r =>
      if is_delimiter c then (EmptyString, s)
      else let '(tok, rest) := scan_atom r in (String c tok, rest)
  end.

(** The outer [while i < length] loop; [rest] is [text[i:]].  Every
    iteration uses one unit of fuel. *)
Fixpoint tokenize_loop (fuel : nat) (rest : string) (tokens : list string)
  : option (list string) :=
  match fuel with
  | O => None
  | S fuel' =>
      match rest with
      | EmptyString => Some tokens
      | String char rest' =>
          if is_space char then tokenize_loop fuel' rest' tokens
          else if Ascii.eqb char "(" then tokenize_loop fuel' rest' (tokens ++ ["("])
          else if Ascii.eqb char ")" then tokenize_loop fuel' rest' (tokens ++ [")"])
          else if Ascii.eqb char dquote then
            let '(tok, rest'') := scan_quoted rest' in
            tokenize_loop fuel' rest'' (tokens ++ [String char tok])
          else
            let '(tok, rest'') := scan_atom rest in
            tokenize_loop fuel' rest'' (tokens ++ [tok])
      end
  end.

Definition _tokenize (text : string) : option (list string) :=
  tokenize_loop (S (String.length text)) text [].

(** ** [_parse_tokens] *)

(** The atom branch: a token that starts and ends with a double quote loses
    both and has its escapes replaced; any other token is kept. *)
Definition atom_value (token : string) : string :=
  if PyStr.startswith DQ token && PyStr.endswith_char dquote token then
    let value := PyStr.strip_ends token in
    let value := PyStr.replace (BS +:+ DQ) DQ value in
    let value := PyStr.replace (BS +:+ BS) BS value in
    value
  else token.

(** The two replacements of the atom branch on their own. *)
Definition resolve_escapes (s : string) : string :=
  PyStr.replace (BS +:+ BS) BS (PyStr.replace (BS +:+ DQ) DQ s).

(** [_parse_tokens] and the [while] loop of its list branch.  The fuel bounds
    the depth of the calls. *)
Fixpoint _parse_tokens (fuel : nat) (tokens : list string) (pos : nat)
  : option (SExpr * nat) :=
  match fuel with
  | O => None
  | S fuel' =>
      match tokens !! pos with
      | None => Some (SList [], pos)
      | Some token =>
          if String.eqb token "(" then parse_list fuel' tokens (pos + 1) []
          else if String.eqb token ")" then Some (SList [], pos + 1)
          else Some (Atom (atom_value token), pos + 1)
      end
  end
with parse_list (fuel : nat) (tokens : list string) (pos : nat) (result : list SExpr)
  : option (SExpr * nat) :=
  match fuel with
  | O => None
  | S fuel' =>
      match tokens !! pos with
      | None => Some (SList result, pos)
      | Some token =>
          if String.eqb token ")" then Some (SList result, pos + 1)
          else
            match _parse_tokens fuel' tokens pos with
            | Some (item, pos') => parse_list fuel' tokens pos' (result ++ [item])
            | None => None
            end
      end
  end.

(** Fuel that always suffices for a token list (see [parse_tokens_total]). *)
Definition parse_fuel (tokens : list string) : nat := 2 * List.length tokens + 1.

Definition parse_kicad (text : string) : option SExpr :=
  tokens ← _tokenize text;
  '(result, _) ← _parse_tokens (parse_fuel tokens) tokens 0;
  Some result.

(** ** Tree queries *)

(** [node == name] for a node and a Python string: a list never equals a
    string. *)
Definition sexpr_eq_str (node : SExpr) (name : string) : bool :=
  match node with
  | Atom value => String.eqb value name
  | SList _ => false
  end.

(** [len(node) > 0 and node[0] == element_name] *)
Definition head_matches (items : list SExpr) (element_name : string) : bool :=
  match items with
  | [] => false
  | first :: _ => sexpr_eq_str first element_name
  end.

(** [isinstance(node, list)] *)
Definition is_list (node : SExpr) : bool :=
  match node with
  | Atom _ => false
  | SList _ => true
  end.

(** [_find_elements_recursive]: the list [results] is the accumulator the
    source appends to. *)
Fixpoint _find_elements_recursive (node : SExpr) (element_name : string)
    (results : list SExpr) : list SExpr :=
  match node with
  | Atom _ => results
  | SList items =>
      let results :=
        if head_matches items element_name then results ++ [node] else results in
      fold_left
        (fun results child =>
           match child with
           | SList _ => _find_elements_recursive child element_name results
           | Atom _ => results
           end)
        items results
  end.

Definition find_elements (tree : SExpr) (element_name : string) : list SExpr :=
  _find_elements_recursive tree element_name [].

Section Queries.

(** [str(x)] of a parsed node is the string itself for an atom.  For a
    list it is Python's [repr] of a nested list, which lies outside the
    program and is taken as a parameter. *)
Variable list_repr : list SExpr -> string.

Definition py_str (node : SExpr) : string :=
  match node with
  | Atom value => value
  | SList items => list_repr items
  end.

(** The loop of [get_property] over the children of [element]. *)
Fixpoint get_property_loop (items : list SExpr) (property_name : string)
  : option string :=
  match items with
  | [] => None
  | item :: rest =>
      match item with
      | SList (i0 :: i1 :: i2 :: _) =>
          if sexpr_eq_str i0 "property" && sexpr_eq_str i1 property_name
          then Some (py_str i2)
          else get_property_loop rest property_name
      | _ => get_property_loop rest property_name
      end
  end.

Definition get_property (element : SExpr) (property_name : string)
  : option string :=
  match element with
  | Atom _ => None
  | SList items => get_property_loop items property_name
  end.

(** The loop of [get_element_value] over the children of [element]. *)
Fixpoint get_element_value_loop (items : list SExpr) (key : string)
  : option string :=
  match items with
  | [] => None
  | item :: rest =>
      match item with
      | SList (i0 :: i1 :: _) =>
          if sexpr_eq_str i0 key then Some (py_str i1)
          else get_element_value_loop rest key
      | _ => get_element_value_loop rest key
      end
  end.

Definition get_element_value (element : SExpr) (key : string) : option string :=
  match element with
  | Atom _ => None
  | SList items => get_element_value_loop items key
  end.

End Queries.

(** ** Paths

    [pathlib]'s pure POSIX paths: a root (empty, one slash or two slashes)
    and the list of components.  Equality and hashing of paths are equality
    of these two fields. *)

Record Path : Type := mkPath { root : string; parts : list string }.

#[global] Instance Path_eq_dec : EqDecision Path.
Proof. solve_decision. Defined.

#[global] Instance Path_countable : Countable Path :=
  inj_countable' (fun p => (root p, parts p)) (fun rp => mkPath rp.1 rp.2)
    (fun p => match p with mkPath _ _ => eq_refl end).

Module PurePath.

(** [s.split("/")] *)
Fixpoint split_slash (s : string) : list string :=
  match s with
  | EmptyString => [EmptyString]
  | String c r =>
      if Ascii.eqb c "/" then EmptyString :: split_slash r
      else
        match split_slash r with
        | [] => [String c EmptyString]
        | x :: xs => String c x :: xs
        end
  end.

(** [s.lstrip("/")] *)
Fixpoint lstrip_slash (s : string) : string :=
  match s with
  | String c r => if Ascii.eqb c "/" then lstrip_slash r else s
  | EmptyString => EmptyString
  end.

(** The root of a path string: two leading slashes are kept as they are,
    any other number of leading slashes is one slash. *)
Definition root_of (s : string) : string :=
  match String.length s - String.length (lstrip_slash s) with
  | 0 => ""
  | 2 => "//"
  | _ => "/"
  end.

(** A component is kept when it is neither empty nor a single dot. *)
Definition keep_part (x : string) : bool :=
  negb (String.eqb x "") && negb (String.eqb x ".").

(** [Path(s)] *)
Definition of_string (s : string) : Path :=
  mkPath (root_of s) (List.filter keep_part (split_slash (lstrip_slash s))).

(** [sep.join(parts)] *)
Fixpoint join_slash (ps : list string) : string :=
  match ps with
  | [] => ""
  | [x] => x
  | x :: rest => x +:+ "/" +:+ join_slash rest
  end.

(** [str(p)] *)
Definition to_string (p : Path) : string :=
  match root p, parts p with
  | EmptyString, [] => "."
  | r, ps => r +:+ join_slash ps
  end.

(** [p.is_absolute()] *)
Definition is_absolute (p : Path) : bool := negb (String.eqb (root p) "").

(** [p / q] for a path [q] *)
Definition join (p q : Path) : Path :=
  if is_absolute q then q else mkPath (root p) (parts p ++ parts q).

(** [p / s] for a string [s] *)
Definition join_str (p : Path) (s : string) : Path := join p (of_string s).

(** [p.parent] *)
Definition parent (p : Path) : Path :=
  match parts p with
  | [] => p
  | _ => mkPath (root p) (removelast (parts p))
  end.

(** [p.name] *)
Definition name (p : Path) : string := List.last (parts p) "".

(** [s.rfind(".")], as the number of characters before the last dot. *)
Fixpoint rfind_dot (s : string) : option nat :=
  match s with
  | EmptyString => None
  | String c r =>
      match rfind_dot r with
      | Some i => Some (S i)
      | None => if Ascii.eqb c "." then Some 0 else None
      end
  end.

(** [p.stem]: the name up to its last dot, when that dot is neither the
    first nor the last character. *)
Definition stem (p : Path) : string :=
  let nm := name p in
  match rfind_dot nm with
  | Some i =>
      if Nat.ltb 0 i && Nat.ltb i (String.length nm - 1) then String.substring 0 i nm
      else nm
  | None => nm
  end.

(** [xs] is a prefix of [ys], then what is left of [ys]. *)
Fixpoint strip_prefix (xs ys : list string) : option (list string) :=
  match xs, ys with
  | [], _ => Some ys
  | x :: xs', y :: ys' => if String.eqb x y then strip_prefix xs' ys' else None
  | _ :: _, [] => None
  end.

(** [p.relative_to(other)]; [None] stands for [ValueError]. *)
Definition relative_to (p other : Path) : option Path :=
  if String.eqb (root p) (root other) then
    match strip_prefix (parts other) (parts p) with
    | Some rest => Some (mkPath "" rest)
    | None => None
    end
  else None.

End PurePath.

(** ** The file system

    The collector only reads the file system, through [exists], [resolve]
    and [read_text].  [fs_files] is the finite set of canonical paths of
    the entries that exist: a path that exists resolves into it. *)

Inductive ReadResult : Type :=
| ReadOk (content : string)
| ReadError (message : string).

Record FileSystem : Type := mkFileSystem {
  fs_exists : Path -> bool;
  fs_resolve : Path -> Path;
  fs_read_text : Path -> ReadResult;
  fs_files : gset Path;
  fs_exists_resolve : forall p, fs_exists p = true -> fs_resolve p ∈ fs_files
}.

(** ** [ProjectCollector] *)

Record Collector : Type := mkCollector {
  pcb_path : Path;
  project_dir : Path;
  project_name : string;
  collected_files : gset Path;
  external_files : gmap Path string;
  warnings : list string
}.

(** [self.collected_files.add(p)] *)
Definition add_file (p : Path) (c : Collector) : Collector :=
  mkCollector (pcb_path c) (project_dir c) (project_name c)
    ({[p]} ∪ collected_files c) (external_files c) (warnings c).

(** [self.external_files[p] = lib_name] *)
Definition add_external (p : Path) (lib_name : string) (c : Collector) : Collector :=
  mkCollector (pcb_path c) (project_dir c) (project_name c)
    (collected_files c) (<[p := lib_name]> (external_files c)) (warnings c).

(** [self.warnings.append(msg)] *)
Definition warn (msg : string) (c : Collector) : Collector :=
  mkCollector (pcb_path c) (project_dir c) (project_name c)
    (collected_files c) (external_files c) (warnings c ++ [msg]).

(** [ProjectCollector.__init__] *)
Definition init (pcb : string) : Collector :=
  let pcb_path := PurePath.of_string pcb in
  mkCollector pcb_path (PurePath.parent pcb_path) (PurePath.stem pcb_path) ∅ ∅ [].

(** The state of the hierarchy walk: the collector, the [visited] set
    shared by all the calls, and the log of the files read so far (the
    argument of each [read_text]). *)
Record Walk : Type := mkWalk {
  walk_collector : Collector;
  walk_visited : gset Path;
  walk_reads : list Path
}.

(** A [for] loop whose body may run out of fuel. *)
Fixpoint for_each {A St : Type} (body : St -> A -> option St) (l : list A) (s : St)
  : option St :=
  match l with
  | [] => Some s
  | x :: rest =>
      match body s x with
      | Some s' => for_each body rest s'
      | None => None
      end
  end.

(** A Python string used as a condition: empty and absent are false. *)
Definition truthy (o : option string) : option string :=
  match o with
  | Some EmptyString => None
  | _ => o
  end.

Section Collect.

Variable list_repr : list SExpr -> string.
Variable fs : FileSystem.

(** [_collect_core_files] *)
Definition _collect_core_files (c : Collector) : Collector :=
  let c := if fs_exists fs (pcb_path c) then add_file (pcb_path c) c else c in
  let pro_path := PurePath.join_str (project_dir c) (project_name c +:+ ".kicad_pro") in
  let c :=
    if fs_exists fs pro_path then add_file pro_path c
    else warn ("Project file not found: " +:+ PurePath.name pro_path) c in
  let sch_path := PurePath.join_str (project_dir c) (project_name c +:+ ".kicad_sch") in
  if fs_exists fs sch_path then add_file sch_path c
  else warn ("Schematic file not found: " +:+ PurePath.name sch_path) c.

(** The body of the loop over the sheets of one schematic; [recurse] is
    the recursive call. *)
Definition sheet_step (recurse : Path -> Walk -> option Walk) (sch_path : Path)
    (w : Walk) (sheet : SExpr) : option Walk :=
  match truthy (get_property list_repr sheet "Sheetfile") with
  | None => Some w
  | Some sheet_file =>
      let sheet_path := PurePath.join_str (PurePath.parent sch_path) sheet_file in
      if fs_exists fs sheet_path then
        recurse sheet_path
          (mkWalk (add_file (fs_resolve fs sheet_path) (walk_collector w))
             (walk_visited w) (walk_reads w))
      else
        Some (mkWalk (warn ("Subsheet not found: " +:+ sheet_file) (walk_collector w))
                (walk_visited w) (walk_reads w))
  end.

(** [_parse_schematic_sheets]; the fuel bounds the depth of the recursion. *)
Fixpoint _parse_schematic_sheets (fuel : nat) (sch_path : Path) (w : Walk)
  : option Walk :=
  match fuel with
  | O => None
  | S fuel' =>
      let resolved := fs_resolve fs sch_path in
      if decide (resolved ∈ walk_visited w) then Some w
      else
        let visited := {[resolved]} ∪ walk_visited w in
        if negb (fs_exists fs sch_path) then
          Some (mkWalk
                  (warn ("Referenced schematic not found: "
                         +:+ PurePath.to_string sch_path) (walk_collector w))
                  visited (walk_reads w))
        else
          let reads := walk_reads w ++ [sch_path] in
          match fs_read_text fs sch_path with
          | ReadError e =>
              Some (mkWalk
                      (warn ("Error parsing " +:+ PurePath.name sch_path
                             +:+ ": " +:+ e) (walk_collector w))
                      visited reads)
          | ReadOk content =>
              match parse_kicad content with
              | None => None
              | Some tree =>
                  let sheets := find_elements tree "sheet" in
                  for_each (sheet_step (_parse_schematic_sheets fuel') sch_path)
                    sheets (mkWalk (walk_collector w) visited reads)
              end
          end
  end.

(** Depth that the walk cannot exceed: every call that goes on to recurse
    puts a new existing file in [visited]. *)
Definition walk_fuel : nat := S (size (fs_files fs)).

(** [_collect_schematic_hierarchy], with the final state of the walk. *)
Definition hierarchy_walk (c : Collector) : option Walk :=
  let main_sch := PurePath.join_str (project_dir c) (project_name c +:+ ".kicad_sch") in
  if negb (fs_exists fs main_sch) then Some (mkWalk c ∅ [])
  else _parse_schematic_sheets walk_fuel main_sch (mkWalk c ∅ []).

Definition _collect_schematic_hierarchy (c : Collector) : option Collector :=
  match hierarchy_walk c with
  | Some w => Some (walk_collector w)
  | None => None
  end.

(** [_resolve_lib_path] *)
Definition _resolve_lib_path (c : Collector) (uri : string) : option Path :=
  if PyStr.startswith "${KICAD" uri then None
  else
    let uri :=
      if PyStr.startswith "${KIPRJMOD}" uri
      then PyStr.replace "${KIPRJMOD}" (PurePath.to_string (project_dir c)) uri
      else uri in
    let uri := PyStr.replace BS "/" uri in
    let path := PurePath.of_string uri in
    let path :=
      if negb (PurePath.is_absolute path) then PurePath.join (project_dir c) path
      else path in
    Some path.

(** [_is_external] *)
Definition _is_external (c : Collector) (path : Path) : bool :=
  match PurePath.relative_to (fs_resolve fs path) (fs_resolve fs (project_dir c)) with
  | Some _ => false
  | None => true
  end.

(** The body of the loop over the [lib] entries of the library table. *)
Definition lib_step (c : Collector) (lib : SExpr) : Collector :=
  match truthy (get_element_value list_repr lib "uri") with
  | None => c
  | Some uri =>
      match _resolve_lib_path c uri with
      | None => c
      | Some lib_path =>
          if fs_exists fs lib_path then
            if _is_external c lib_path then
              let lib_name :=
                match truthy (get_element_value list_repr lib "name") with
                | Some n => n
                | None => PurePath.name lib_path
                end in
              add_external (fs_resolve fs lib_path) lib_name c
            else add_file (fs_resolve fs lib_path) c
          else warn ("Library not found: " +:+ uri) c
      end
  end.

(** [_collect_symbol_libraries] *)
Definition _collect_symbol_libraries (c : Collector) : option Collector :=
  let lib_table_path := PurePath.join_str (project_dir c) "sym-lib-table" in
  if negb (fs_exists fs lib_table_path) then Some c
  else
    match fs_read_text fs lib_table_path with
    | ReadError e => Some (warn ("Error parsing sym-lib-table: " +:+ e) c)
    | ReadOk content =>
        match parse_kicad content with
        | None => None
        | Some tree => Some (fold_left lib_step (find_elements tree "lib") c)
        end
    end.

(** [collect_all] *)
Definition collect_all (c : Collector) : option Collector :=
  let c := _collect_core_files c in
  match _collect_schematic_hierarchy c with
  | Some c => _collect_symbol_libraries c
  | None => None
  end.

End Collect.

(** The destination of a collected file: its path relative to the project
    directory, or its bare name when [relative_to] raises. *)
Definition project_dest (c : Collector) (file_path : Path) : string :=
  match PurePath.relative_to file_path (project_dir c) with
  | Some rel_path => PurePath.to_string rel_path
  | None => PurePath.name file_path
  end.

(** The destination of an external library. *)
Definition external_dest (file_path : Path) : string :=
  "external_libs/" +:+ PurePath.name file_path.

(** [get_files_for_zip]: the two loops fill the result in turn. *)
Definition get_files_for_zip (c : Collector) : gmap Path string :=
  let result : gmap Path string :=
    fold_left (fun result file_path => <[file_path := project_dest c file_path]> result)
      (elements (collected_files c)) ∅ in
  fold_left (fun result entry => <[entry.1 := external_dest entry.1]> result)
    (map_to_list (external_files c)) result.

(** ** Concrete file systems

    A file system given by a table of canonical paths with what reading
    them returns, and a [resolve] function. *)

Fixpoint table_read (table : list (Path * ReadResult)) (p : Path) : ReadResult :=
  match table with
  | [] => ReadError "No such file or directory"
  | (q, r) :: rest => if decide (q = p) then r else table_read rest p
  end.

Definition table_fs (resolve : Path -> Path) (table : list (Path * ReadResult))
  : FileSystem :=
  mkFileSystem
    (fun p => bool_decide (resolve p ∈ (list_to_set (table.*1) : gset Path)))
    resolve
    (fun p => table_read table (resolve p))
    (list_to_set (table.*1))
    (fun p H => proj1 (bool_decide_eq_true _) H).

Definition pth (s : string) : Path := PurePath.of_string s.

(** A stand-in for Python's [repr] of a list. *)
Definition sample_repr (l : list SExpr) : string := "[...]".

(** A string between double quotes. *)
Definition quoted (s : string) : string := DQ +:+ s +:+ DQ.

(** A schematic with one sheet whose [Sheetfile] property is [file]. *)
Definition schematic_with_sheet (file : string) : string :=
  "(kicad_sch (sheet (at 0 0) (property " +:+ quoted "Sheetfile" +:+ " "
  +:+ quoted file +:+ ")))".

(** A library table with one entry. *)
Definition lib_table (name uri : string) : string :=
  "(sym_lib_table (lib (name " +:+ quoted name +:+ ")(type KiCad)(uri "
  +:+ quoted uri +:+ ")))".

(** The end-to-end scenario of the specification. *)
Definition fs_scenario : FileSystem :=
  table_fs (fun p => p)
    [ (pth "/p/x.kicad_pcb", ReadOk "(kicad_pcb)");
      (pth "/p/x.kicad_pro", ReadOk "{}");
      (pth "/p/x.kicad_sch", ReadOk (schematic_with_sheet "sub.kicad_sch"));
      (pth "/p/sub.kicad_sch", ReadOk "(kicad_sch)");
      (pth "/p/mylib.kicad_sym", ReadOk "(kicad_symbol_lib)");
      (pth "/p/sym-lib-table", ReadOk (lib_table "mylib" "${KIPRJMOD}/mylib.kicad_sym")) ].

(** Two schematics that refer to each other. *)
Definition fs_cycle : FileSystem :=
  table_fs (fun p => p)
    [ (pth "/p/x.kicad_pcb", ReadOk "(kicad_pcb)");
      (pth "/p/x.kicad_pro", ReadOk "{}");
      (pth "/p/x.kicad_sch", ReadOk (schematic_with_sheet "b.kicad_sch"));
      (pth "/p/b.kicad_sch", ReadOk (schematic_with_sheet "x.kicad_sch")) ].

(** A sheet kept outside the project directory, referred to by its
    absolute path. *)
Definition fs_outside : FileSystem :=
  table_fs (fun p => p)
    [ (pth "/p/x.kicad_pcb", ReadOk "(kicad_pcb)");
      (pth "/p/x.kicad_pro", ReadOk "{}");
      (pth "/p/x.kicad_sch", ReadOk (schematic_with_sheet "/q/sub.kicad_sch"));
      (pth "/q/sub.kicad_sch", ReadOk "(kicad_sch)") ].

(** [/link] is a symbolic link to the directory [/real]. *)
Definition resolve_link (p : Path) : Path :=
  match parts p with
  | first :: rest =>
      if String.eqb (root p) "/" && String.eqb first "link"
      then mkPath "/" ("real" :: rest)
      else p
  | [] => p
  end.

(** The two schematics that refer to each other, opened through the link. *)
Definition fs_link : FileSystem :=
  table_fs resolve_link
    [ (pth "/real/x.kicad_pcb", ReadOk "(kicad_pcb)");
      (pth "/real/x.kicad_pro", ReadOk "{}");
      (pth "/real/x.kicad_sch", ReadOk (schematic_with_sheet "b.kicad_sch"));
      (pth "/real/b.kicad_sch", ReadOk (schematic_with_sheet "x.kicad_sch")) ].

(** A library outside the project whose entry declares an empty name, and
    one in a directory whose name starts like the project's. *)
Definition fs_libs : FileSystem :=
  table_fs (fun p => p)
    [ (pth "/p/x.kicad_pcb", ReadOk "(kicad_pcb)");
      (pth "/p/sym-lib-table", ReadOk (lib_table "" "/ext/foo.kicad_sym"));
      (pth "/ext/foo.kicad_sym", ReadOk "(kicad_symbol_lib)");
      (pth "/p2/bar.kicad_sym", ReadOk "(kicad_symbol_lib)") ].

(** The library entry of [fs_libs]. *)
Definition lib_empty_name : SExpr :=
  SList [Atom "lib"; SList [Atom "name"; Atom ""]; SList [Atom "type"; Atom "KiCad"];
         SList [Atom "uri"; Atom "/ext/foo.kicad_sym"]].



(** ** Nesting of parentheses in a token list

    [close_at inner ts] reads [ts] after an opening parenthesis, with
    [inner] further lists open inside it, and counts the tokens up to and
    including the closing parenthesis that matches it.  [None]: the
    opening parenthesis is unmatched. *)
Fixpoint close_at (inner : nat) (ts : list string) : option nat :=
  match ts with
  | [] => None
  | t :: rest =>
      if String.eqb t "(" then S <$> close_at (S inner) rest
      else if String.eqb t ")" then
        match inner with
        | O => Some 1
        | S inner' => S <$> close_at inner' rest
        end
      else S <$> close_at inner rest
  end.

(** ** Escape sequences, as the specification words them

    One pass from left to right: a backslash followed by a double quote is
    a double quote, a backslash followed by a backslash is a backslash,
    every other character stands for itself. *)
Fixpoint unescape (s : string) : string :=
  match s with
  | EmptyString => EmptyString
  | String c r =>
      if Ascii.eqb c backslash then
        match r with
        | String d r' =>
            if Ascii.eqb d dquote || Ascii.eqb d backslash
            then String d (unescape r')
            else String c (unescape r)
        | EmptyString => String c EmptyString
        end
      else String c (unescape r)
  end.

(** ** Sample texts *)

(** The text of the specification's parsing example: an open parenthesis,
    [a], an open parenthesis, [b], then the quoted string made of [c], an
    escaped double quote and [d], then two closing parentheses. *)
Definition sample_quoted_text : string :=
  "(a (b " +:+ DQ +:+ "c" +:+ BS +:+ DQ +:+ "d" +:+ DQ +:+ "))".

(** The string made of [c], a double quote and [d]. *)
Definition sample_quoted_value : string := "c" +:+ DQ +:+ "d".

(** ** Pre-order traversal, as the specification words it *)

(** The list nodes of a tree in depth-first pre-order: a list node comes
    first, then the list nodes of its children, from left to right. *)
Fixpoint list_nodes (node : SExpr) : list SExpr :=
  match node with
  | Atom _ => []
  | SList items => node :: flat_map list_nodes items
  end.

(** A node matches a name when it is a list whose first element is an atom
    equal to the name. *)
Definition matches_name (name : string) (node : SExpr) : bool :=
  match node with
  | SList (Atom first :: _) => String.eqb first name
  | _ => false
  end.

(** The tree of the specification's example
    [(root (sheet (at 0 0)) (sheet (at 1 1)))]. *)
Definition sample_sheets_text : string := "(root (sheet (at 0 0)) (sheet (at 1 1)))".

(** A tag nested in itself: [(sheet x (sheet y))]. *)
Definition nested_sheet : SExpr :=
  SList [Atom "sheet"; Atom "x"; SList [Atom "sheet"; Atom "y"]].

(** ** The steps of the hierarchy walk

    What one call of [_parse_schematic_sheets] and its loop do to the state,
    one mutation at a time. *)
Inductive walk_step (fs : FileSystem) : Walk -> Walk -> Prop :=
| step_visit_missing w sch_path msg :
    fs_resolve fs sch_path ∉ walk_visited w ->
    walk_step fs w
      (mkWalk (warn msg (walk_collector w))
         ({[fs_resolve fs sch_path]} ∪ walk_visited w) (walk_reads w))
| step_visit_read w sch_path :
    fs_resolve fs sch_path ∉ walk_visited w ->
    fs_exists fs sch_path = true ->
    walk_step fs w
      (mkWalk (walk_collector w)
         ({[fs_resolve fs sch_path]} ∪ walk_visited w) (walk_reads w ++ [sch_path]))
| step_warn w msg :
    walk_step fs w
      (mkWalk (warn msg (walk_collector w)) (walk_visited w) (walk_reads w))
| step_add_file w sheet_path :
    fs_exists fs sheet_path = true ->
    walk_step fs w
      (mkWalk (add_file (fs_resolve fs sheet_path) (walk_collector w))
         (walk_visited w) (walk_reads w)).

(** The files read are read once each, and are all in [visited]. *)
Definition reads_once (fs : FileSystem) (w : Walk) : Prop :=
  NoDup (fs_resolve fs <$> walk_reads w)
  /\ forall q, q ∈ walk_reads w -> fs_resolve fs q ∈ walk_visited w.


(** ** Paths, as the specification words them *)

(** [p] lies in the directory subtree of [dir]: same root, and the
    components of [dir] are the first components of [p]. *)
Definition inside_subtree (dir p : Path) : Prop :=
  root p = root dir /\ exists rest, parts p = parts dir ++ rest.

(** The string holds a slash. *)
Fixpoint has_slash (s : string) : bool :=
  match s with
  | EmptyString => false
  | String c r => Ascii.eqb c "/" || has_slash r
  end.

(** ** Library URIs, as the specification words them *)

(** Every backslash turned into a forward slash. *)
Fixpoint forward_slashes (s : string) : string :=
  match s with
  | EmptyString => EmptyString
  | String c r =>
      String (if Ascii.eqb c backslash then "/"%char else c) (forward_slashes r)
  end.

(** A relative path is taken from the project directory, an absolute one
    is kept. *)
Definition from_project_dir (c : Collector) (p : Path) : Path :=
  if PurePath.is_absolute p then p
  else mkPath (root (project_dir c)) (parts (project_dir c) ++ parts p).

(** ** Readings of the specification, stated as it words them *)

(** Every collected file is given its path relative to the project
    directory. *)
Definition every_collected_file_root_relative : Prop :=
  forall list_repr fs pcb c,
    collect_all list_repr fs (init pcb) = Some c ->
    forall p, p ∈ collected_files c ->
      exists rel,
        PurePath.relative_to p (project_dir c) = Some rel
        /\ get_files_for_zip c !! p = Some (PurePath.to_string rel).

(** An external library is recorded under the name its entry declares,
    whenever the entry declares one. *)
Definition external_recorded_under_declared_name : Prop :=
  forall list_repr fs c lib uri lib_path declared,
    truthy (get_element_value list_repr lib "uri") = Some uri ->
    _resolve_lib_path c uri = Some lib_path ->
    fs_exists fs lib_path = true ->
    _is_external fs c lib_path = true ->
    get_element_value list_repr lib "name" = Some declared ->
    external_files (lib_step list_repr fs c lib) !! fs_resolve fs lib_path
    = Some declared.


(** ** One file, several members

    The members of a set of paths that stand for the file whose canonical
    path is [file]. *)
Definition entries_for (fs : FileSystem) (file : Path) (paths : gset Path)
  : gset Path :=
  filter (fun p => fs_resolve fs p = file) paths.

(** A project with a sheet [sub.kicad_sch] of its own that refers to a
    sheet of the same name kept in [/q]. *)
Definition fs_same_name : FileSystem :=
  table_fs (fun p => p)
    [ (pth "/p/x.kicad_pcb", ReadOk "(kicad_pcb)");
      (pth "/p/x.kicad_pro", ReadOk "{}");
      (pth "/p/x.kicad_sch", ReadOk (schematic_with_sheet "sub.kicad_sch"));
      (pth "/p/sub.kicad_sch", ReadOk (schematic_with_sheet "/q/sub.kicad_sch"));
      (pth "/q/sub.kicad_sch", ReadOk "(kicad_sch)") ].

(** ** What a run of the collector adds *)

(** What [b] holds beyond [a]: files that exist or are resolved paths of
    existing files, and external libraries outside the resolved project
    directory; nothing is removed and the project fields stay. *)
Definition grows_by_existing (fs : FileSystem) (a b : Collector) : Prop :=
  pcb_path b = pcb_path a
  /\ project_dir b = project_dir a
  /\ project_name b = project_name a
  /\ collected_files a ⊆ collected_files b
  /\ dom (external_files a) ⊆ dom (external_files b)
  /\ (exists more, warnings b = warnings a ++ more)
  /\ (forall p, p ∈ collected_files b ->
        p ∈ collected_files a \/ fs_exists fs p = true \/ p ∈ fs_files fs)
  /\ (forall p, p ∈ dom (external_files b) ->
        p ∈ dom (external_files a)
        \/ (p ∈ fs_files fs
            /\ ~ inside_subtree (fs_resolve fs (project_dir a)) p)).

(** A project whose schematic exists and cannot be read. *)
Definition fs_unreadable : FileSystem :=
  table_fs (fun p => p)
    [ (pth "/p/x.kicad_pcb", ReadOk "(kicad_pcb)");
      (pth "/p/x.kicad_pro", ReadOk "{}");
      (pth "/p/x.kicad_sch", ReadError "invalid start byte") ].


(** ** Records and tokens, as shapes *)

(** A child that [get_property] accepts for [property_name]: a list of at
    least three elements, the atom [property], then the name. *)
Definition is_property_record (property_name : string) (item : SExpr) : bool :=
  match item with
  | SList (i0 :: i1 :: _ :: _) =>
      sexpr_eq_str i0 "property" && sexpr_eq_str i1 property_name
  | _ => false
  end.

(** A child that [get_element_value] accepts for [key]: a list of at least
    two elements that starts with the key. *)
Definition is_key_record (key : string) (item : SExpr) : bool :=
  match item with
  | SList (i0 :: _ :: _) => sexpr_eq_str i0 key
  | _ => false
  end.

(** Every character of the string passes the test. *)
Fixpoint all_chars (test : ascii -> bool) (s : string) : bool :=
  match s with
  | EmptyString => true
  | String c r => test c && all_chars test r
  end.

(** The shapes a token can have: a parenthesis, a string that starts with
    a double quote, or a non-empty run of characters none of which is
    whitespace, a parenthesis or a double quote. *)
Definition token_shape (t : string) : bool :=
  String.eqb t "(" || String.eqb t ")" || PyStr.startswith DQ t
  || (negb (String.eqb t "") && all_chars (fun c => negb (is_delimiter c)) t).

(** Neither a double quote nor a backslash. *)
Definition plain_char (c : ascii) : bool :=
  negb (Ascii.eqb c dquote) && negb (Ascii.eqb c backslash).


(** ** [get_files_by_category] *)

(** [p.suffix]: the name from its last dot on, when that dot is neither the
    first nor the last character; empty otherwise. *)
Definition path_suffix (p : Path) : string :=
  let nm := PurePath.name p in
  match PurePath.rfind_dot nm with
  | Some i =>
      if Nat.ltb 0 i && Nat.ltb i (String.length nm - 1)
      then String.substring i (String.length nm - i) nm
      else ""
  | None => ""
  end.

(** The order of [sorted] on paths: the lists made of the root, when there
    is one, and the components are compared as Python compares lists of
    strings. *)
Fixpoint parts_leb (xs ys : list string) : bool :=
  match xs, ys with
  | [], _ => true
  | _ :: _, [] => false
  | x :: xs', y :: ys' =>
      match String.compare x y with
      | Eq => parts_leb xs' ys'
      | Lt => true
      | Gt => false
      end
  end.

Definition compared_parts (p : Path) : list string :=
  if String.eqb (root p) "" then parts p else root p :: parts p.

Definition path_le (p q : Path) : Prop :=
  parts_leb (compared_parts p) (compared_parts q) = true.

#[global] Instance path_le_dec : RelDecision path_le.
Proof. intros p q. unfold path_le. apply _. Defined.

(** [sorted(paths)] *)
Definition sorted_paths (paths : list Path) : list Path := merge_sort path_le paths.

(** The dictionary [result] with its three keys. *)
Record Categories : Type := mkCategories {
  project_files : list string;
  schematic_files : list string;
  external_libraries : list string
}.

Definition is_project_file (file_path : Path) : bool :=
  String.eqb (path_suffix file_path) ".kicad_pcb"
  || String.eqb (path_suffix file_path) ".kicad_pro".

Definition is_schematic_file (file_path : Path) : bool :=
  String.eqb (path_suffix file_path) ".kicad_sch".

(** The body of the loop over the collected files. *)
Definition categorize_file (result : Categories) (file_path : Path) : Categories :=
  if is_project_file file_path then
    mkCategories (project_files result ++ [PurePath.name file_path])
      (schematic_files result) (external_libraries result)
  else if is_schematic_file file_path then
    mkCategories (project_files result)
      (schematic_files result ++ [PurePath.name file_path]) (external_libraries result)
  else result.

(** The body of the loop over the external files. *)
Definition categorize_external (result : Categories) (file_path : Path) : Categories :=
  mkCategories (project_files result) (schematic_files result)
    (external_libraries result ++ [PurePath.name file_path]).

(** A Python list used as a condition. *)
Definition non_empty {A : Type} (l : list A) : bool :=
  match l with
  | [] => false
  | _ :: _ => true
  end.

(** [get_files_by_category]; the dictionary returned is the list of its
    items in insertion order. *)
Definition get_files_by_category (c : Collector) : list (string * list string) :=
  let result := mkCategories [] [] [] in
  let result :=
    fold_left categorize_file (sorted_paths (elements (collected_files c))) result in
  let result :=
    fold_left categorize_external
      (sorted_paths (elements (dom (external_files c)))) result in
  List.filter (fun item => non_empty item.2)
    [ ("Project Files", project_files result);
      ("Schematic Files", schematic_files result);
      ("External Libraries", external_libraries result) ].

(** [d.get(key, [])] on such a dictionary. *)
Fixpoint category (key : string) (d : list (string * list string)) : list string :=
  match d with
  | [] => []
  | (k, v) :: rest => if String.eqb k key then v else category key rest
  end.

(** ** [ZipExporter.create_zip]

    The archive written is the list of its entries, source and name in the
    archive; a source that does not exist when the archive is written is
    passed over. *)
Definition create_zip (fs : FileSystem) (files : gmap Path string)
  : list (Path * string) :=
  List.filter (fun entry => fs_exists fs entry.1) (map_to_list files).


(** ** Writing a tree as text

    Not part of the program: the usual way to write a tree whose atoms
    need no quotes, used to state that the parser reads such a text back. *)

(** An atom written without quotes: not empty, and free of whitespace,
    parentheses and double quotes. *)
Definition plain_atom (a : string) : bool :=
  negb (String.eqb a "") && all_chars (fun c => negb (is_delimiter c)) a.

Fixpoint plain_tree (t : SExpr) : bool :=
  match t with
  | Atom a => plain_atom a
  | SList items => forallb plain_tree items
  end.

(** The items after the first, each after a space. *)
Definition spaced (to_text : SExpr -> string) (items : list SExpr) : string :=
  fold_right (fun item rest => " " +:+ to_text item +:+ rest) "" items.

Fixpoint to_text (t : SExpr) : string :=
  match t with
  | Atom a => a
  | SList items =>
      "(" +:+ match items with
              | [] => ""
              | first :: others => to_text first +:+ spaced to_text others
              end +:+ ")"
  end.

Fixpoint to_tokens (t : SExpr) : list string :=
  match t with
  | Atom a => [a]
  | SList items => "(" :: flat_map to_tokens items ++ [")"]
  end.

(** The text is empty or starts with a character that ends an atom. *)
Definition starts_with_delimiter (s : string) : bool :=
  match s with
  | EmptyString => true
  | String c _ => is_delimiter c
  end.


(** * Properties *)

(** ** The tokenizer terminates *)

Lemma scan_quoted_length (n : nat) :
  forall s tok rest,
    String.length s <= n -> scan_quoted s = (tok, rest) ->
    String.length rest <= String.length s.
Proof.
  induction n as [|n IH]; intros s tok rest Hn Hs.
  - destruct s; simpl in *; [|lia]. inversion Hs; subst; simpl; lia.
  - destruct s as [|c r]; simpl in Hs; [inversion Hs; subst; simpl; lia|].
    destruct (Ascii.eqb c backslash).
    + destruct r as [|d r']; [inversion Hs; subst; simpl; lia|].
      destruct (scan_quoted r') as [t0 r0] eqn:E. inversion Hs; subst.
      simpl in *. assert (String.length rest <= String.length r') by (apply (IH r' t0); [lia|done]). lia.
    + destruct (Ascii.eqb c dquote); [inversion Hs; subst; simpl; lia|].
      destruct (scan_quoted r) as [t0 r0] eqn:E. inversion Hs; subst.
      simpl in *. assert (String.length rest <= String.length r) by (apply (IH r t0); [lia|done]). lia.
Qed.

Lemma scan_atom_length s :
  forall tok rest, scan_atom s = (tok, rest) -> String.length rest <= String.length s.
Proof.
  induction s as [|c r IH]; intros tok rest Hs; simpl in Hs.
  - inversion Hs; subst; simpl; lia.
  - destruct (is_delimiter c); [inversion Hs; subst; simpl; lia|].
    destruct (scan_atom r) as [t0 r0]. inversion Hs; subst.
    specialize (IH t0 rest eq_refl). simpl. lia.
Qed.

Lemma tokenize_loop_total fuel :
  forall rest tokens,
    String.length rest < fuel -> is_Some (tokenize_loop fuel rest tokens).
Proof.
  induction fuel as [|fuel IH]; intros rest tokens Hlen; [lia|].
  destruct rest as [|char rest']; simpl; [done|].
  simpl in Hlen.
  destruct (is_space char) eqn:Hsp; [apply IH; lia|].
  destruct (Ascii.eqb char "(") eqn:Hop; [apply IH; lia|].
  destruct (Ascii.eqb char ")") eqn:Hcl; [apply IH; lia|].
  destruct (Ascii.eqb char dquote) eqn:Hdq.
  - destruct (scan_quoted rest') as [tok rest''] eqn:E.
    apply IH. pose proof (scan_quoted_length _ _ _ _ (le_n _) E). lia.
  - replace (is_delimiter char) with false
      by (unfold is_delimiter; by rewrite Hsp, Hop, Hcl, Hdq).
    destruct (scan_atom rest') as [tok rest''] eqn:E.
    apply IH. pose proof (scan_atom_length _ _ _ E). lia.
Qed.

Lemma tokenize_total text : is_Some (_tokenize text).
Proof. apply tokenize_loop_total. lia. Qed.

(** ** The parser: positions, termination, fuel *)

Ltac lookup_cases tokens pos tok H :=
  destruct (tokens !! pos) as [tok|] eqn:H;
  [ pose proof (lookup_lt_Some _ _ _ H) | pose proof (proj1 (lookup_ge_None _ _) H) ].

(** The position returned is never before the one given, never beyond the
    end of the tokens unless it started there, and it moves when a token
    was available. *)
Lemma parse_positions (tokens : list string) fuel :
  (forall pos r p,
      _parse_tokens fuel tokens pos = Some (r, p) ->
      pos <= p /\ p <= Nat.max pos (List.length tokens)
      /\ (pos < List.length tokens -> pos < p))
  /\ (forall pos res r p,
      parse_list fuel tokens pos res = Some (r, p) ->
      pos <= p /\ p <= Nat.max pos (List.length tokens)).
Proof.
  induction fuel as [|fuel [IHt IHl]]; [split; intros; discriminate|].
  split.
  - intros pos r p Hp. simpl in Hp.
    lookup_cases tokens pos tok Htok.
    + destruct (String.eqb tok "(").
      { apply IHl in Hp. lia. }
      destruct (String.eqb tok ")"); inversion Hp; subst; lia.
    + inversion Hp; subst; lia.
  - intros pos res r p Hp. simpl in Hp.
    lookup_cases tokens pos tok Htok.
    + destruct (String.eqb tok ")"); [inversion Hp; subst; lia|].
      destruct (_parse_tokens fuel tokens pos) as [[item pos']|] eqn:Hi; [|discriminate].
      apply IHt in Hi. apply IHl in Hp. lia.
    + inversion Hp; subst; lia.
Qed.

(** Enough fuel gives a result. *)
Lemma parse_enough_fuel (tokens : list string) fuel :
  (forall pos,
      2 * (List.length tokens - pos) + 1 <= fuel ->
      is_Some (_parse_tokens fuel tokens pos))
  /\ (forall pos res,
      2 * (List.length tokens - pos) + 2 <= fuel ->
      is_Some (parse_list fuel tokens pos res)).
Proof.
  induction fuel as [|fuel [IHt IHl]]; [split; intros; lia|].
  split.
  - intros pos Hf. simpl.
    lookup_cases tokens pos tok Htok; [|done].
    destruct (String.eqb tok "("); [apply IHl; lia|].
    destruct (String.eqb tok ")"); done.
  - intros pos res Hf. simpl.
    lookup_cases tokens pos tok Htok; [|done].
    destruct (String.eqb tok ")"); [done|].
    destruct (IHt pos) as [[item pos'] Hi]; [lia|]. rewrite Hi.
    apply (proj1 (parse_positions tokens fuel)) in Hi.
    apply IHl. lia.
Qed.

Lemma parse_tokens_total (tokens : list string) :
  is_Some (_parse_tokens (parse_fuel tokens) tokens 0).
Proof. apply parse_enough_fuel. unfold parse_fuel. lia. Qed.

Lemma parse_kicad_total text : is_Some (parse_kicad text).
Proof.
  unfold parse_kicad.
  destruct (tokenize_total text) as [tokens ->]. simpl.
  destruct (parse_tokens_total tokens) as [[r p] ->]. done.
Qed.

(** More fuel does not change a result. *)
Lemma parse_fuel_mono (tokens : list string) fuel :
  (forall fuel' pos x,
      _parse_tokens fuel tokens pos = Some x -> fuel <= fuel' ->
      _parse_tokens fuel' tokens pos = Some x)
  /\ (forall fuel' pos res x,
      parse_list fuel tokens pos res = Some x -> fuel <= fuel' ->
      parse_list fuel' tokens pos res = Some x).
Proof.
  induction fuel as [|fuel [IHt IHl]]; [split; intros; discriminate|].
  split.
  - intros [|fuel'] pos x Hp Hle; [lia|]. simpl in *.
    destruct (tokens !! pos) as [tok|]; [|done].
    destruct (String.eqb tok "("); [apply IHl; [done|lia]|done].
  - intros [|fuel'] pos res x Hp Hle; [lia|]. simpl in *.
    destruct (tokens !! pos) as [tok|]; [|done].
    destruct (String.eqb tok ")"); [done|].
    destruct (_parse_tokens fuel tokens pos) as [[item pos']|] eqn:Hi; [|discriminate].
    rewrite (IHt fuel' pos _ Hi) by lia. apply IHl; [done|lia].
Qed.

(** A parse that stops before the end of the tokens has only looked at the
    tokens before the position it returns. *)
Lemma parse_prefix_only (tokens tokens' : list string) fuel :
  (forall pos r p,
      _parse_tokens fuel tokens pos = Some (r, p) ->
      p < List.length tokens ->
      (forall i, i < p -> tokens' !! i = tokens !! i) ->
      _parse_tokens fuel tokens' pos = Some (r, p))
  /\ (forall pos res r p,
      parse_list fuel tokens pos res = Some (r, p) ->
      p < List.length tokens ->
      (forall i, i < p -> tokens' !! i = tokens !! i) ->
      parse_list fuel tokens' pos res = Some (r, p)).
Proof.
  induction fuel as [|fuel [IHt IHl]]; [split; intros; discriminate|].
  split.
  - intros pos r p Hp Hlt Hsame.
    pose proof (proj1 (parse_positions tokens (S fuel)) _ _ _ Hp) as Hpos.
    simpl in *.
    lookup_cases tokens pos tok Htok.
    + rewrite Hsame, Htok by lia.
      destruct (String.eqb tok "("); [by apply IHl|done].
    + inversion Hp; subst; lia.
  - intros pos res r p Hp Hlt Hsame.
    pose proof (proj2 (parse_positions tokens (S fuel)) _ _ _ _ Hp) as Hpos.
    simpl in *.
    lookup_cases tokens pos tok Htok.
    + destruct (String.eqb tok ")") eqn:Hcl.
      { inversion Hp; subst. rewrite Hsame, Htok by lia. by rewrite Hcl. }
      destruct (_parse_tokens fuel tokens pos) as [[item pos']|] eqn:Hi; [|discriminate].
      pose proof (proj1 (parse_positions tokens fuel) _ _ _ Hi) as Hpi.
      pose proof (proj2 (parse_positions tokens fuel) _ _ _ _ Hp) as Hpl.
      rewrite Hsame, Htok, Hcl by lia.
      rewrite (IHt pos item pos' Hi) by (try lia; intros; apply Hsame; lia).
      by apply IHl.
    + inversion Hp; subst; lia.
Qed.

(** ** Unmatched opening parentheses *)

Lemma close_at_split (ts : list string) :
  forall k inner,
    close_at (k + S inner) ts =
    match close_at k ts with
    | Some n => (fun m => n + m) <$> close_at inner (drop n ts)
    | None => None
    end.
Proof.
  induction ts as [|t rest IH]; intros k inner; simpl; [done|].
  destruct (String.eqb t "(").
  - change (S (k + S inner)) with (S k + S inner). rewrite (IH (S k) inner).
    destruct (close_at (S k) rest) as [n|]; simpl; [|done].
    by destruct (close_at inner (drop n rest)).
  - destruct (String.eqb t ")").
    + destruct k as [|k]; simpl.
      * rewrite drop_0. by destruct (close_at inner rest).
      * rewrite (IH k inner).
        destruct (close_at k rest) as [n|]; simpl; [|done].
        by destruct (close_at inner (drop n rest)).
    + rewrite (IH k inner).
      destruct (close_at k rest) as [n|]; simpl; [|done].
      by destruct (close_at inner (drop n rest)).
Qed.

(** The list loop stops right after the matching closing parenthesis, or at
    the end of the tokens when there is none; an item leaves the nesting
    as it found it. *)
Lemma parse_follows_nesting (tokens : list string) fuel :
  (forall pos r p tok,
      _parse_tokens fuel tokens pos = Some (r, p) ->
      tokens !! pos = Some tok -> tok <> ")" ->
      forall inner,
        close_at inner (drop pos tokens) =
        (fun n => (p - pos) + n) <$> close_at inner (drop p tokens))
  /\ (forall pos res r p,
      parse_list fuel tokens pos res = Some (r, p) ->
      pos <= List.length tokens ->
      match close_at 0 (drop pos tokens) with
      | Some n => p = pos + n
      | None => p = List.length tokens
      end).
Proof.
  induction fuel as [|fuel [IHt IHl]]; [split; intros; discriminate|].
  split.
  - intros pos r p tok Hp Htok Hne inner. simpl in Hp. rewrite Htok in Hp.
    pose proof (lookup_lt_Some _ _ _ Htok) as Hlt.
    rewrite (drop_S _ _ _ Htok). simpl.
    destruct (String.eqb tok "(") eqn:Hop.
    + pose proof (proj2 (parse_positions tokens fuel) _ _ _ _ Hp) as Hpos.
      apply IHl in Hp; [|lia].
      replace (S inner) with (0 + S inner) by done.
      rewrite close_at_split. replace (S pos) with (pos + 1) by lia.
      destruct (close_at 0 (drop (pos + 1) tokens)) as [n|]; subst p.
      * rewrite drop_drop. replace (pos + 1 + n - pos) with (S n) by lia.
        destruct (close_at inner (drop (pos + 1 + n) tokens)); simpl; [f_equal; lia|done].
      * by rewrite drop_all.
    + destruct (String.eqb tok ")") eqn:Hcl.
      { apply String.eqb_eq in Hcl. done. }
      inversion Hp; subst. replace (pos + 1) with (S pos) by lia.
      replace (S pos - pos) with 1 by lia.
      by destruct (close_at inner (drop (S pos) tokens)).
  - intros pos res r p Hp Hle. simpl in Hp.
    lookup_cases tokens pos tok Htok.
    + rewrite (drop_S _ _ _ Htok).
      destruct (String.eqb tok ")") eqn:Hcl.
      { simpl. rewrite Hcl. inversion Hp; subst.
        destruct (String.eqb tok "(") eqn:Hop; [|lia].
        apply String.eqb_eq in Hop, Hcl. congruence. }
      destruct (_parse_tokens fuel tokens pos) as [[item pos']|] eqn:Hi; [|discriminate].
      pose proof (proj1 (parse_positions tokens fuel) _ _ _ Hi) as Hpi.
      assert (Hne : tok <> ")") by (intros ->; done).
      pose proof (IHt _ _ _ _ Hi Htok Hne 0) as Hitem.
      rewrite (drop_S _ _ _ Htok) in Hitem. rewrite Hitem.
      apply IHl in Hp; [|lia].
      destruct (close_at 0 (drop pos' tokens)); simpl; lia.
    + rewrite drop_ge by lia. inversion Hp; subst. simpl. lia.
Qed.

(** The list loop returns a list that starts with what it was given. *)
Lemma parse_list_result (tokens : list string) fuel :
  forall pos res r p,
    parse_list fuel tokens pos res = Some (r, p) ->
    exists more, r = SList (res ++ more).
Proof.
  induction fuel as [|fuel IH]; intros pos res r p Hp; [discriminate|].
  simpl in Hp.
  destruct (tokens !! pos) as [tok|].
  - destruct (String.eqb tok ")").
    { inversion Hp; subst. exists []. by rewrite app_nil_r. }
    destruct (_parse_tokens fuel tokens pos) as [[item pos']|]; [|discriminate].
    apply IH in Hp as [more ->]. exists (item :: more). by rewrite <- app_assoc.
  - inversion Hp; subst. exists []. by rewrite app_nil_r.
Qed.

(** ** Escapes: the two replacements are one left-to-right pass *)

Lemma prefix_one (b d : ascii) (r : string) :
  String.prefix (String b "") (String d r) = Ascii.eqb d b.
Proof.
  simpl. destruct (ascii_dec b d) as [->|Hne].
  - rewrite Ascii.eqb_refl. by destruct r.
  - symmetry. apply Ascii.eqb_neq. congruence.
Qed.

Lemma replace_pair_step (a b : ascii) (new : string) (c : ascii) (r : string) :
  PyStr.replace (String a (String b "")) new (String c r) =
  if Ascii.eqb c a then
    match r with
    | String d r' =>
        if Ascii.eqb d b
        then new +:+ PyStr.replace (String a (String b "")) new r'
        else String c (PyStr.replace (String a (String b "")) new r)
    | EmptyString => String c EmptyString
    end
  else String c (PyStr.replace (String a (String b "")) new r).
Proof.
  unfold PyStr.replace.
  cbn [PyStr.replace_from String.prefix String.length Nat.sub].
  destruct (ascii_dec a c) as [->|Hne].
  - rewrite Ascii.eqb_refl. destruct r as [|d r']; [done|].
    rewrite prefix_one. by destruct (Ascii.eqb d b).
  - by rewrite (proj2 (Ascii.eqb_neq c a)) by congruence.
Qed.

Lemma replace_empty old new : PyStr.replace old new "" = "".
Proof. done. Qed.

Lemma resolve_escapes_unescape (n : nat) :
  forall s, String.length s <= n -> resolve_escapes s = unescape s.
Proof.
  unfold resolve_escapes.
  change (BS +:+ BS) with (String backslash (String backslash "")).
  change (BS +:+ DQ) with (String backslash (String dquote "")).
  unfold BS, DQ.
  set (f := PyStr.replace (String backslash (String dquote "")) (String dquote "")).
  set (g := PyStr.replace (String backslash (String backslash "")) (String backslash "")).
  assert (Hf : forall c r, f (String c r) =
     if Ascii.eqb c backslash then
       match r with
       | String d r' => if Ascii.eqb d dquote then String dquote (f r') else String c (f r)
       | EmptyString => String c EmptyString
       end
     else String c (f r)).
  { intros c r. unfold f. rewrite replace_pair_step.
    destruct (Ascii.eqb c backslash); [|done]. destruct r as [|d r']; [done|].
    by destruct (Ascii.eqb d dquote). }
  assert (Hg : forall c r, g (String c r) =
     if Ascii.eqb c backslash then
       match r with
       | String d r' => if Ascii.eqb d backslash then String backslash (g r') else String c (g r)
       | EmptyString => String c EmptyString
       end
     else String c (g r)).
  { intros c r. unfold g. rewrite replace_pair_step.
    destruct (Ascii.eqb c backslash); [|done]. destruct r as [|d r']; [done|].
    by destruct (Ascii.eqb d backslash). }
  assert (Hf0 : f "" = "") by done.
  assert (Hg0 : g "" = "") by done.
  clearbody f g.
  induction n as [|n IH]; intros s Hn.
  { destruct s; simpl in Hn; [|lia]. by rewrite Hf0, Hg0. }
  destruct s as [|c r]; [by rewrite Hf0, Hg0|].
  simpl in Hn. simpl unescape. rewrite Hf.
  destruct (Ascii.eqb_spec c backslash) as [->|Hc].
  - destruct r as [|d r'].
    { by rewrite Hg, Ascii.eqb_refl. }
    simpl in Hn.
    destruct (Ascii.eqb_spec d dquote) as [->|Hdq].
    { rewrite Hg. simpl. f_equal. apply IH. lia. }
    destruct (Ascii.eqb_spec d backslash) as [->|Hbs]; simpl.
    + (* two backslashes: what follows decides the first replacement *)
      rewrite Hf, Ascii.eqb_refl.
      destruct r' as [|e r''].
      { by rewrite Hg, !Ascii.eqb_refl, Hg0. }
      simpl in Hn.
      destruct (Ascii.eqb_spec e dquote) as [->|He].
      * rewrite Hg, Ascii.eqb_refl. simpl. rewrite Hg. simpl.
        do 2 f_equal. apply IH. lia.
      * rewrite Hg, !Ascii.eqb_refl. f_equal. apply IH. simpl. lia.
    + rewrite Hf, (proj2 (Ascii.eqb_neq d backslash) Hbs).
      rewrite Hg, Ascii.eqb_refl, (proj2 (Ascii.eqb_neq d backslash) Hbs).
      f_equal.
      rewrite Hg, (proj2 (Ascii.eqb_neq d backslash) Hbs).
      f_equal. apply IH. lia.
  - rewrite Hg, (proj2 (Ascii.eqb_neq c backslash) Hc).
    f_equal. apply IH. lia.
Qed.

(** ** Quoted-string tokens *)

Lemma last_char_snoc (s : string) (c : ascii) :
  PyStr.last_char (s +:+ String c "") = Some c.
Proof.
  induction s as [|d s IH]; [done|].
  simpl. rewrite IH. by destruct (s +:+ String c "") eqn:E; [destruct s|].
Qed.

Lemma drop_last_snoc (s : string) (c : ascii) :
  PyStr.drop_last (s +:+ String c "") = s.
Proof.
  induction s as [|d s IH]; [done|].
  simpl. rewrite IH. by destruct (s +:+ String c "") eqn:E; [destruct s|].
Qed.

Lemma atom_value_quoted (body : string) :
  atom_value (DQ +:+ body +:+ DQ) = unescape body.
Proof.
  unfold atom_value, PyStr.startswith, PyStr.endswith_char, PyStr.strip_ends.
  change (DQ +:+ body +:+ DQ) with (String dquote (body +:+ String dquote "")).
  unfold DQ at 1. rewrite prefix_one, Ascii.eqb_refl.
  assert (Hl : PyStr.last_char (String dquote (body +:+ String dquote "")) = Some dquote).
  { change (String dquote (body +:+ String dquote ""))
      with ((String dquote body) +:+ String dquote "").
    apply last_char_snoc. }
  rewrite Hl, Ascii.eqb_refl. cbn [andb PyStr.drop_first].
  rewrite drop_last_snoc.
  apply (resolve_escapes_unescape _ _ (le_n _)).
Qed.

(** C4: parsing [sample_quoted_text] gives the list of the atom [a] and
    the list of the atom [b] and the atom whose value is [c], a double
    quote, [d]; and a token made of a
    double quote, a body and a double quote becomes the atom whose value is
    the body with backslash-quote resolved to a quote and
    backslash-backslash resolved to a backslash. *)
Theorem parse_kicad_quoted_strings :
  parse_kicad sample_quoted_text
  = Some (SList [Atom "a"; SList [Atom "b"; Atom sample_quoted_value]])
  /\ (forall (tokens : list string) pos fuel body,
        tokens !! pos = Some (DQ +:+ body +:+ DQ) ->
        _parse_tokens (S fuel) tokens pos = Some (Atom (unescape body), pos + 1)).
Proof.
  split; [reflexivity|].
  intros tokens pos fuel body Htok. simpl. rewrite Htok.
  change (DQ +:+ body +:+ DQ) with (String dquote (body +:+ DQ)).
  replace (String.eqb (String dquote (body +:+ DQ)) "(") with false by done.
  replace (String.eqb (String dquote (body +:+ DQ)) ")") with false by done.
  change (String dquote (body +:+ DQ)) with (DQ +:+ body +:+ DQ).
  by rewrite atom_value_quoted.
Qed.

Lemma parse_kicad_quoted_strings_witness :
  _parse_tokens 1 [DQ +:+ (BS +:+ BS +:+ BS +:+ DQ +:+ "n") +:+ DQ] 0
  = Some (Atom (BS +:+ DQ +:+ "n"), 1).
Proof.
  apply (proj2 parse_kicad_quoted_strings
           [DQ +:+ (BS +:+ BS +:+ BS +:+ DQ +:+ "n") +:+ DQ] 0 0
           (BS +:+ BS +:+ BS +:+ DQ +:+ "n")).
  reflexivity.
Defined.

(** C10: when tokens are left after the first top-level expression,
    [parse_kicad] returns the node of that first expression, and the
    tokens after it play no part: any text whose tokens start with the same
    first expression parses to the same node.  So [a b] gives the atom [a]
    and [(a) (b)] gives the list of [a]. *)
Theorem parse_kicad_first_expression_only :
  (forall text (tokens : list string) r p,
      _tokenize text = Some tokens ->
      _parse_tokens (parse_fuel tokens) tokens 0 = Some (r, p) ->
      p < List.length tokens ->
      parse_kicad text = Some r
      /\ forall text' (tokens' : list string),
           _tokenize text' = Some tokens' ->
           take p tokens' = take p tokens ->
           parse_kicad text' = Some r)
  /\ parse_kicad "a b" = Some (Atom "a")
  /\ parse_kicad "(a) (b)" = Some (SList [Atom "a"]).
Proof.
  split; [|split; reflexivity].
  intros text tokens r p Htok Hparse Hlt. split.
  { unfold parse_kicad. rewrite Htok. simpl. by rewrite Hparse. }
  intros text' tokens' Htok' Htake.
  unfold parse_kicad. rewrite Htok'. simpl.
  assert (Hsame : forall i, i < p -> tokens' !! i = tokens !! i).
  { intros i Hi. rewrite <- (lookup_take_lt tokens' p i Hi), Htake.
    by apply lookup_take_lt. }
  pose proof (proj1 (parse_prefix_only tokens tokens' _) _ _ _ Hparse Hlt Hsame) as H1.
  destruct (parse_tokens_total tokens') as [[r' p'] H2].
  set (big := Nat.max (parse_fuel tokens) (parse_fuel tokens')).
  pose proof (proj1 (parse_fuel_mono tokens' _) big _ _ H1 (Nat.le_max_l _ _)) as H1'.
  pose proof (proj1 (parse_fuel_mono tokens' _) big _ _ H2 (Nat.le_max_r _ _)) as H2'.
  rewrite H2. rewrite H1' in H2'. by inversion H2'.
Qed.

Lemma parse_kicad_first_expression_only_witness :
  parse_kicad "(a) (b)" = Some (SList [Atom "a"])
  /\ parse_kicad "(a) ) c" = Some (SList [Atom "a"]).
Proof.
  destruct (proj1 parse_kicad_first_expression_only
              "(a) (b)" ["("; "a"; ")"; "("; "b"; ")"] (SList [Atom "a"]) 3)
    as [H1 H2]; [reflexivity|reflexivity|simpl; lia|].
  split; [exact H1|].
  apply (H2 "(a) ) c" ["("; "a"; ")"; ")"; "c"]); reflexivity.
Defined.

(** ** [find_elements] *)

(** Induction on trees, with the hypothesis for every child of a list. *)
Lemma SExpr_forall_ind (Q : SExpr -> Prop) :
  (forall value, Q (Atom value)) ->
  (forall items, Forall Q items -> Q (SList items)) ->
  forall node, Q node.
Proof.
  intros Hatom Hlist. fix IH 1. intros [value|items]; [apply Hatom|].
  apply Hlist. induction items as [|item items IHitems]; constructor.
  - apply IH.
  - apply IHitems.
Qed.

Lemma head_matches_name (items : list SExpr) (name : string) :
  head_matches items name = matches_name name (SList items).
Proof. destruct items as [|[first|sub] rest]; done. Qed.

Lemma find_loop_flat_map (name : string) (items : list SExpr) :
  Forall (fun child => forall acc,
            _find_elements_recursive child name acc
            = acc ++ List.filter (matches_name name) (list_nodes child)) items ->
  forall acc,
    fold_left
      (fun results child =>
         match child with
         | SList _ => _find_elements_recursive child name results
         | Atom _ => results
         end) items acc
    = acc ++ List.filter (matches_name name) (flat_map list_nodes items).
Proof.
  induction 1 as [|child items Hchild _ IH]; intros acc; simpl.
  - by rewrite app_nil_r.
  - rewrite List.filter_app, app_assoc, <- Hchild, IH.
    by destruct child.
Qed.

Lemma find_elements_acc (name : string) (node : SExpr) :
  forall acc,
    _find_elements_recursive node name acc
    = acc ++ List.filter (matches_name name) (list_nodes node).
Proof.
  induction node as [value|items IH] using SExpr_forall_ind; intros acc.
  - simpl. by rewrite app_nil_r.
  - cbn [_find_elements_recursive list_nodes List.filter].
    rewrite (find_loop_flat_map name items IH), head_matches_name.
    destruct (matches_name name (SList items)); [|done].
    by rewrite <- app_assoc.
Qed.

(** C5: [find_elements] returns exactly the list nodes whose first
    element is an atom equal to the name, in the order of the depth-first
    pre-order traversal of the whole tree; a node that matches is followed
    by the matches found in its children, so nested matches of one tag are
    all returned, the parent first. *)
Theorem find_elements_preorder :
  (forall tree name,
      find_elements tree name = List.filter (matches_name name) (list_nodes tree))
  /\ (forall items name,
      find_elements (SList items) name
      = (if matches_name name (SList items) then [SList items] else [])
        ++ flat_map (fun child => find_elements child name) items)
  /\ (parse_kicad sample_sheets_text ≫= fun tree => Some (find_elements tree "sheet"))
     = Some [ SList [Atom "sheet"; SList [Atom "at"; Atom "0"; Atom "0"]];
              SList [Atom "sheet"; SList [Atom "at"; Atom "1"; Atom "1"]] ]
  /\ find_elements nested_sheet "sheet"
     = [ nested_sheet; SList [Atom "sheet"; Atom "y"] ].
Proof.
  assert (Hall : forall tree name,
             find_elements tree name
             = List.filter (matches_name name) (list_nodes tree)).
  { intros tree name. unfold find_elements. by rewrite find_elements_acc. }
  split; [exact Hall|]. split; [|split; reflexivity].
  intros items name. rewrite Hall. cbn [list_nodes List.filter].
  assert (Hflat : List.filter (matches_name name) (flat_map list_nodes items)
                  = flat_map (fun child => find_elements child name) items).
  { induction items as [|item items IH]; [done|].
    simpl. by rewrite List.filter_app, IH, Hall. }
  rewrite Hflat. by destruct (matches_name name (SList items)).
Qed.

(** ** The hierarchy walk *)

Lemma for_each_rel {A St : Type} (R : St -> St -> Prop) `{!PreOrder R}
    (body : St -> A -> option St) (l : list A) :
  (forall s x s', x ∈ l -> body s x = Some s' -> R s s') ->
  forall s s', for_each body l s = Some s' -> R s s'.
Proof.
  induction l as [|x l IH]; intros Hbody s s' Hrun; simpl in Hrun.
  - inversion Hrun; subst. reflexivity.
  - destruct (body s x) as [s1|] eqn:Hx; [|discriminate].
    transitivity s1.
    + apply (Hbody s x s1); [left|done].
    + apply IH; [|done]. intros s0 y s0' Hy. apply Hbody. by right.
Qed.


Section Walk.

Variable list_repr : list SExpr -> string.
Variable fs : FileSystem.

Local Abbreviation steps := (rtc (walk_step fs)).
Local Abbreviation walk := (_parse_schematic_sheets list_repr fs).

Lemma sheet_step_steps (recurse : Path -> Walk -> option Walk) sch_path w sheet w' :
  (forall p w0 w1, recurse p w0 = Some w1 -> steps w0 w1) ->
  sheet_step list_repr fs recurse sch_path w sheet = Some w' ->
  steps w w'.
Proof.
  intros Hrec Hs. unfold sheet_step in Hs.
  destruct (truthy _) as [sheet_file|]; [|inversion Hs; subst; reflexivity].
  destruct (fs_exists fs (PurePath.join_str _ sheet_file)) eqn:Hex.
  - eapply rtc_l; [by apply step_add_file|]. by eapply Hrec.
  - inversion Hs; subst. apply rtc_once, step_warn.
Qed.

(** A call of the walk is a sequence of steps. *)
Lemma walk_steps fuel :
  forall sch_path w w', walk fuel sch_path w = Some w' -> steps w w'.
Proof.
  induction fuel as [|fuel IH]; intros sch_path w w' Hw; [discriminate|].
  simpl in Hw.
  destruct (decide _) as [Hin|Hnot]; [inversion Hw; subst; reflexivity|].
  destruct (fs_exists fs sch_path) eqn:Hex; simpl in Hw.
  2:{ inversion Hw; subst. by apply rtc_once, step_visit_missing. }
  eapply rtc_l; [by apply (step_visit_read fs w sch_path)|].
  destruct (fs_read_text fs sch_path) as [content|e].
  - destruct (parse_kicad content) as [tree|]; [|discriminate].
    apply (for_each_rel steps _ _) in Hw; [done|].
    intros s x s' _. apply sheet_step_steps, IH.
  - inversion Hw; subst. apply rtc_once, (step_warn fs (mkWalk _ _ _)).
Qed.

(** What a sequence of steps keeps or only grows. *)
Lemma steps_monotone w w' :
  steps w w' ->
  walk_visited w ⊆ walk_visited w'
  /\ collected_files (walk_collector w) ⊆ collected_files (walk_collector w')
  /\ (exists more, warnings (walk_collector w') = warnings (walk_collector w) ++ more)
  /\ (exists more, walk_reads w' = walk_reads w ++ more)
  /\ external_files (walk_collector w') = external_files (walk_collector w)
  /\ project_dir (walk_collector w') = project_dir (walk_collector w)
  /\ project_name (walk_collector w') = project_name (walk_collector w)
  /\ pcb_path (walk_collector w') = pcb_path (walk_collector w).
Proof.
  induction 1 as [w|w w1 w' Hstep _ IH].
  - repeat split; try done; exists []; by rewrite app_nil_r.
  - destruct IH as (Hv & Hc & [mw Hw] & [mr Hr] & He & Hd & Hn & Hp).
    rewrite He, Hd, Hn, Hp, Hw, Hr.
    destruct Hstep; simpl in *.
    + repeat split; try done; [set_solver| |by exists mr].
      exists (msg :: mw). by rewrite <- app_assoc.
    + repeat split; try done; [set_solver|by exists mw|].
      exists (sch_path :: mr). by rewrite <- app_assoc.
    + repeat split; try done; [|by exists mr].
      exists (msg :: mw). by rewrite <- app_assoc.
    + repeat split; try done; [set_solver|by exists mw|by exists mr].
Qed.

(** Reading each file at most once is kept by every step. *)
Lemma steps_reads_once w w' : steps w w' -> reads_once fs w -> reads_once fs w'.
Proof.
  induction 1 as [w|w w1 w' Hstep _ IH]; [done|].
  intros [Hnd Hin]. apply IH. clear IH.
  destruct Hstep; unfold reads_once; simpl.
  - split; [done|]. intros q Hq. set_solver.
  - split.
    + rewrite fmap_app. apply NoDup_app. split; [done|]. split.
      * intros r Hr Hr'. apply list_elem_of_fmap in Hr as [q [-> Hq]].
        apply list_elem_of_singleton in Hr'. apply Hin in Hq. congruence.
      * apply NoDup_singleton.
    + intros q Hq. apply elem_of_app in Hq as [Hq|Hq]; [set_solver|].
      apply list_elem_of_singleton in Hq. set_solver.
  - done.
  - done.
Qed.

End Walk.

Section WalkTotal.

Variable list_repr : list SExpr -> string.
Variable fs : FileSystem.

Local Abbreviation steps := (rtc (walk_step fs)).
Local Abbreviation walk := (_parse_schematic_sheets list_repr fs).

(** The number of existing files not yet visited. *)
Local Abbreviation unvisited w := (size (fs_files fs ∖ walk_visited w)).

Lemma unvisited_steps w w' : steps w w' -> unvisited w' <= unvisited w.
Proof.
  intros Hs. apply (steps_monotone fs) in Hs as (Hv & _).
  apply subseteq_size. set_solver.
Qed.

Lemma unvisited_visit (r : Path) (visited : gset Path) :
  r ∈ fs_files fs -> r ∉ visited ->
  size (fs_files fs ∖ ({[r]} ∪ visited)) < size (fs_files fs ∖ visited).
Proof.
  intros Hin Hnot. apply subset_size. split; [set_solver|].
  intros Hsub. assert (r ∈ fs_files fs ∖ ({[r]} ∪ visited)) by set_solver.
  set_solver.
Qed.

(** With fuel above the number of unvisited files the walk returns. *)
Lemma walk_enough_fuel fuel :
  forall sch_path w, unvisited w < fuel -> is_Some (walk fuel sch_path w).
Proof.
  induction fuel as [|fuel IH]; intros sch_path w Hfuel; [lia|].
  simpl. destruct (decide _) as [Hin|Hnot]; [done|].
  destruct (fs_exists fs sch_path) eqn:Hex; simpl; [|done].
  destruct (fs_read_text fs sch_path) as [content|e]; [|done].
  destruct (parse_kicad_total content) as [tree ->].
  pose proof (unvisited_visit _ _ (fs_exists_resolve fs _ Hex) Hnot) as Hlt.
  set (w0 := mkWalk _ _ _).
  assert (Hw0 : unvisited w0 < fuel) by (simpl; lia).
  clearbody w0. clear Hlt Hfuel Hnot.
  induction (find_elements tree "sheet") as [|sheet sheets IHs] in w0, Hw0 |- *; [done|].
  simpl.
  assert (Hstep : exists w1, sheet_step list_repr fs (walk fuel) sch_path w0 sheet = Some w1).
  { unfold sheet_step. destruct (truthy _) as [sheet_file|]; [|by eexists].
    destruct (fs_exists fs (PurePath.join_str _ sheet_file)); [|by eexists].
    destruct (IH (PurePath.join_str (PurePath.parent sch_path) sheet_file)
                (mkWalk (add_file (fs_resolve fs
                           (PurePath.join_str (PurePath.parent sch_path) sheet_file))
                           (walk_collector w0)) (walk_visited w0) (walk_reads w0)))
      as [w1 Hw1]; [exact Hw0|]. by exists w1. }
  destruct Hstep as [w1 Hw1]. rewrite Hw1.
  apply IHs.
  apply (sheet_step_steps list_repr fs) in Hw1; [|apply walk_steps].
  pose proof (unvisited_steps _ _ Hw1). lia.
Qed.

Lemma hierarchy_walk_total c : is_Some (hierarchy_walk list_repr fs c).
Proof.
  unfold hierarchy_walk. destruct (fs_exists fs _); cbn [negb]; [|done].
  apply walk_enough_fuel. unfold walk_fuel. cbn [walk_visited].
  assert (size (fs_files fs ∖ ∅) <= size (fs_files fs)) by (apply subseteq_size; set_solver).
  lia.
Qed.

Lemma hierarchy_walk_steps c w :
  hierarchy_walk list_repr fs c = Some w -> steps (mkWalk c ∅ []) w.
Proof.
  unfold hierarchy_walk. destruct (fs_exists fs _); cbn [negb]; intros Hw.
  - by apply walk_steps in Hw.
  - inversion Hw; subst. reflexivity.
Qed.


End WalkTotal.

(** ** The library table *)

Section Libraries.

Variable list_repr : list SExpr -> string.
Variable fs : FileSystem.




End Libraries.

(** ** The archive mapping *)

Lemma fold_insert_lookup {X : Type} (key : X -> Path) (dest : Path -> string)
    (l : list X) :
  forall (m : gmap Path string) p,
    fold_left (fun result x => <[key x := dest (key x)]> result) l m !! p
    = if decide (p ∈ key <$> l) then Some (dest p) else m !! p.
Proof.
  induction l as [|x l IH]; intros m p.
  - simpl. destruct (decide (p ∈ [])) as [Hin|_]; [by apply elem_of_nil in Hin|done].
  - rewrite fmap_cons. cbn [fold_left]. rewrite IH.
    destruct (decide (p ∈ key <$> l)) as [Hin|Hnot];
      destruct (decide (p ∈ key x :: (key <$> l))) as [Hin'|Hnot']; try done.
    + exfalso. apply Hnot'. by right.
    + apply elem_of_cons in Hin' as [->|?]; [|done]. by rewrite lookup_insert_eq.
    + rewrite lookup_insert_ne; [done|]. intros <-. apply Hnot'. by left.
Qed.

(** The mapping, entry by entry: an external path gets its place under
    [external_libs/]; any other collected path gets its project
    destination; no other path is in the mapping. *)
Lemma get_files_for_zip_lookup (c : Collector) (p : Path) :
  get_files_for_zip c !! p =
  if decide (p ∈ dom (external_files c)) then Some (external_dest p)
  else if decide (p ∈ collected_files c) then Some (project_dest c p)
  else None.
Proof.
  unfold get_files_for_zip.
  rewrite (fold_insert_lookup fst external_dest).
  assert (Hext : p ∈ (map_to_list (external_files c)).*1 <-> p ∈ dom (external_files c)).
  { rewrite elem_of_dom. split.
    - intros Hin. apply list_elem_of_fmap in Hin as [[q v] [-> Hin]].
      apply elem_of_map_to_list in Hin. by exists v.
    - intros [v Hv]. apply list_elem_of_fmap. exists (p, v). split; [done|].
      by apply elem_of_map_to_list. }
  destruct (decide (p ∈ (map_to_list (external_files c)).*1)) as [Hin|Hnot];
    destruct (decide (p ∈ dom (external_files c))) as [Hin'|Hnot'];
    try done; try tauto.
  rewrite (fold_insert_lookup (fun q : Path => q) (project_dest c)).
  rewrite list_fmap_id.
  destruct (decide (p ∈ elements (collected_files c))) as [Hin|Hnc];
    destruct (decide (p ∈ collected_files c)) as [Hin''|Hnc']; try done.
  - by apply elem_of_elements in Hin.
  - by apply elem_of_elements in Hin''.
Qed.

(** ** Paths *)

Lemma strip_prefix_spec (xs : list string) :
  forall ys rest, PurePath.strip_prefix xs ys = Some rest <-> ys = xs ++ rest.
Proof.
  induction xs as [|x xs IH]; intros ys rest; simpl.
  - split; [by intros [= ->]|by intros ->].
  - destruct ys as [|y ys]; [split; [done|by intros [=]]|].
    destruct (String.eqb_spec x y) as [->|Hne].
    + rewrite IH. split; [by intros ->|by intros [= ->]].
    + split; [done|]. intros [= -> _]. done.
Qed.

Lemma relative_to_inside (p dir : Path) :
  is_Some (PurePath.relative_to p dir) <-> inside_subtree dir p.
Proof.
  unfold PurePath.relative_to, inside_subtree.
  destruct (String.eqb_spec (root p) (root dir)) as [Hr|Hr].
  - destruct (PurePath.strip_prefix (parts dir) (parts p)) as [rest|] eqn:Hs.
    + apply strip_prefix_spec in Hs. split; [|done]. intros _. split; [done|by exists rest].
    + split; [by intros [? [=]]|]. intros [_ [rest Hrest]].
      apply strip_prefix_spec in Hrest. congruence.
  - split; [by intros [? [=]]|]. by intros [? _].
Qed.

Lemma relative_to_parts (p dir rel : Path) :
  PurePath.relative_to p dir = Some rel ->
  root rel = "" /\ parts p = parts dir ++ parts rel.
Proof.
  unfold PurePath.relative_to.
  destruct (String.eqb (root p) (root dir)); [|done].
  destruct (PurePath.strip_prefix (parts dir) (parts p)) as [rest|] eqn:Hs; [|done].
  intros [= <-]. simpl. split; [done|]. by apply strip_prefix_spec.
Qed.

Lemma has_slash_app (a b : string) :
  has_slash (a +:+ b) = has_slash a || has_slash b.
Proof.
  induction a as [|c a IH]; [done|]. simpl. rewrite IH. by rewrite orb_assoc.
Qed.

Lemma split_slash_no_slash (s : string) :
  Forall (fun x => has_slash x = false) (PurePath.split_slash s).
Proof.
  induction s as [|c s IH]; simpl; [by repeat constructor|].
  destruct (Ascii.eqb c "/") eqn:Hc; [by constructor|].
  destruct (PurePath.split_slash s) as [|x xs]; [by repeat constructor; simpl; rewrite Hc|].
  inversion IH; subst. constructor; [|done]. simpl. by rewrite Hc.
Qed.

Lemma split_slash_single (s : string) :
  has_slash s = false -> PurePath.split_slash s = [s].
Proof.
  induction s as [|c s IH]; simpl; [done|].
  destruct (Ascii.eqb c "/"); simpl; [done|]. intros Hs. by rewrite IH.
Qed.

Lemma lstrip_slash_id (s : string) :
  has_slash s = false -> PurePath.lstrip_slash s = s.
Proof. destruct s as [|c s]; simpl; [done|]. by destruct (Ascii.eqb c "/"). Qed.

(** A string without slash, not empty and not a dot, is a one-component
    relative path. *)
Lemma of_string_single (s : string) :
  has_slash s = false -> PurePath.keep_part s = true ->
  PurePath.of_string s = mkPath "" [s].
Proof.
  intros Hs Hk. unfold PurePath.of_string, PurePath.root_of.
  rewrite lstrip_slash_id, Nat.sub_diag, split_slash_single by done.
  simpl. by rewrite Hk.
Qed.

Lemma of_string_parts_no_slash (s : string) :
  Forall (fun x => has_slash x = false) (parts (PurePath.of_string s)).
Proof.
  unfold PurePath.of_string. simpl.
  pose proof (split_slash_no_slash (PurePath.lstrip_slash s)) as Hall.
  induction Hall as [|x xs Hx _ IH]; simpl; [constructor|].
  destruct (PurePath.keep_part x); [by constructor|done].
Qed.

Lemma substring_no_slash (s : string) :
  forall n, has_slash s = false -> has_slash (String.substring 0 n s) = false.
Proof.
  induction s as [|c s IH]; intros [|n]; simpl; try done.
  destruct (Ascii.eqb c "/"); simpl; [done|]. apply IH.
Qed.

Lemma name_no_slash (p : Path) :
  Forall (fun x => has_slash x = false) (parts p) -> has_slash (PurePath.name p) = false.
Proof.
  unfold PurePath.name. induction 1 as [|x xs Hx Hxs IH]; [done|].
  simpl. destruct xs; [done|]. apply IH.
Qed.

Lemma stem_no_slash (s : string) : has_slash (PurePath.stem (PurePath.of_string s)) = false.
Proof.
  pose proof (name_no_slash _ (of_string_parts_no_slash s)) as Hn.
  unfold PurePath.stem. destruct (PurePath.rfind_dot _) as [i|]; [|done].
  destruct (_ && _); [|done]. by apply substring_no_slash.
Qed.

Lemma append_length (a b : string) :
  String.length (a +:+ b) = String.length a + String.length b.
Proof. induction a as [|c a IH]; simpl; [done|]. by rewrite IH. Qed.

(** The name of [dir / (base + ext)] is [base + ext] when [base] has no
    slash and [ext] is a dot followed by a suffix without slash. *)
Lemma sibling_name (dir : Path) (base ext : string) :
  has_slash base = false -> has_slash ext = false -> 2 <= String.length ext ->
  PurePath.name (PurePath.join_str dir (base +:+ ext)) = base +:+ ext.
Proof.
  intros Hb He Hl. unfold PurePath.join_str.
  rewrite of_string_single.
  - unfold PurePath.join, PurePath.is_absolute, PurePath.name. simpl.
    apply last_last.
  - by rewrite has_slash_app, Hb, He.
  - unfold PurePath.keep_part.
    assert (Hlen : 2 <= String.length (base +:+ ext)) by (rewrite append_length; lia).
    destruct (String.eqb_spec (base +:+ ext) "") as [E|_];
      [rewrite E in Hlen; simpl in Hlen; lia|].
    destruct (String.eqb_spec (base +:+ ext) ".") as [E|_];
      [rewrite E in Hlen; simpl in Hlen; lia|done].
Qed.


(** ** Phase B: cycles *)

(** The walk of two schematics that refer to each other, step by step. *)
Lemma walk_two_file_cycle (list_repr : list SExpr -> string) (fs : FileSystem)
    (fuel : nat) (w : Walk) (A B A' : Path) (fA fB contentA contentB : string)
    (treeA treeB sheetA sheetB : SExpr) :
  fs_resolve fs A ∉ walk_visited w ->
  fs_resolve fs B ∉ walk_visited w ->
  fs_resolve fs B <> fs_resolve fs A ->
  fs_exists fs A = true ->
  fs_read_text fs A = ReadOk contentA ->
  parse_kicad contentA = Some treeA ->
  find_elements treeA "sheet" = [sheetA] ->
  truthy (get_property list_repr sheetA "Sheetfile") = Some fB ->
  PurePath.join_str (PurePath.parent A) fB = B ->
  fs_exists fs B = true ->
  fs_read_text fs B = ReadOk contentB ->
  parse_kicad contentB = Some treeB ->
  find_elements treeB "sheet" = [sheetB] ->
  truthy (get_property list_repr sheetB "Sheetfile") = Some fA ->
  PurePath.join_str (PurePath.parent B) fA = A' ->
  fs_exists fs A' = true ->
  fs_resolve fs A' = fs_resolve fs A ->
  _parse_schematic_sheets list_repr fs (S (S (S fuel))) A w
  = Some (mkWalk
            (add_file (fs_resolve fs A) (add_file (fs_resolve fs B) (walk_collector w)))
            ({[fs_resolve fs B]} ∪ ({[fs_resolve fs A]} ∪ walk_visited w))
            (walk_reads w ++ [A; B])).
Proof.
  intros HvA HvB Hne HexA HrA HpA HsA HfB HB HexB HrB HpB HsB HfA HA' HexA' HresA'.
  cbn [_parse_schematic_sheets].
  rewrite decide_False by done.
  rewrite HexA, HrA, HpA, HsA. cbn [negb for_each].
  unfold sheet_step at 1. rewrite HfB, HB, HexB.
  cbn [walk_collector walk_visited walk_reads].
  rewrite decide_False by set_solver.
  rewrite ?HexB, HrB, HpB, HsB. cbn [negb for_each].
  unfold sheet_step at 1. rewrite HfA, HA', HexA'.
  cbn [walk_collector walk_visited walk_reads].
  rewrite HresA'. rewrite decide_True by set_solver.
  by rewrite <- app_assoc.
Qed.

(** C6: whatever the sheets refer to, the walk of Phase B returns; it
    reads each schematic at most once, the files read being told apart by
    their resolved paths, all of them in the visited set.  When schematic A
    refers to B and B refers back to A, the walk reads A then B, adds the
    resolved paths of both to the collected set, and adds no warning; each
    of the two files then has one member in the set provided the members
    the set held before the walk are resolved paths.  They are not when
    the board file is opened through the symbolic link of [fs_link]: Phase
    A has put [/link/x.kicad_sch] in the set as it is, the reference from B
    back to A adds [/real/x.kicad_sch], and schematic A, which had one
    member before the walk, has two after it. *)
Theorem hierarchy_walk_terminates_once :
  (forall list_repr fs c,
      exists w, hierarchy_walk list_repr fs c = Some w /\ reads_once fs w)
  /\ (forall list_repr fs c A B A' fA fB contentA contentB treeA treeB sheetA sheetB,
        A = PurePath.join_str (project_dir c) (project_name c +:+ ".kicad_sch") ->
        fs_resolve fs B <> fs_resolve fs A ->
        fs_exists fs A = true ->
        fs_read_text fs A = ReadOk contentA ->
        parse_kicad contentA = Some treeA ->
        find_elements treeA "sheet" = [sheetA] ->
        truthy (get_property list_repr sheetA "Sheetfile") = Some fB ->
        PurePath.join_str (PurePath.parent A) fB = B ->
        fs_exists fs B = true ->
        fs_read_text fs B = ReadOk contentB ->
        parse_kicad contentB = Some treeB ->
        find_elements treeB "sheet" = [sheetB] ->
        truthy (get_property list_repr sheetB "Sheetfile") = Some fA ->
        PurePath.join_str (PurePath.parent B) fA = A' ->
        fs_exists fs A' = true ->
        fs_resolve fs A' = fs_resolve fs A ->
        exists c',
          _collect_schematic_hierarchy list_repr fs c = Some c'
          /\ collected_files c' = {[fs_resolve fs A; fs_resolve fs B]} ∪ collected_files c
          /\ warnings c' = warnings c
          /\ (hierarchy_walk list_repr fs c ≫= fun w => Some (walk_reads w)) = Some [A; B]
          /\ ((forall p, p ∈ collected_files c -> fs_resolve fs p = p) ->
              fs_resolve fs (fs_resolve fs A) = fs_resolve fs A ->
              fs_resolve fs (fs_resolve fs B) = fs_resolve fs B ->
              size (entries_for fs (fs_resolve fs A) (collected_files c')) = 1
              /\ size (entries_for fs (fs_resolve fs B) (collected_files c')) = 1))
  /\ (exists c,
        collect_all sample_repr fs_cycle (init "/p/x.kicad_pcb") = Some c
        /\ collected_files c
           = {[pth "/p/x.kicad_pcb"; pth "/p/x.kicad_pro";
               pth "/p/x.kicad_sch"; pth "/p/b.kicad_sch"]}
        /\ size (collected_files c) = 4
        /\ warnings c = [])
  /\ (collect_all sample_repr fs_link (init "/link/x.kicad_pcb") ≫= fun c =>
        Some (size (entries_for fs_link (pth "/real/x.kicad_sch")
                      (collected_files
                         (_collect_core_files fs_link (init "/link/x.kicad_pcb")))),
              size (entries_for fs_link (pth "/real/x.kicad_sch") (collected_files c)),
              size (entries_for fs_link (pth "/real/b.kicad_sch") (collected_files c)),
              bool_decide (pth "/link/x.kicad_sch" ∈ collected_files c),
              bool_decide (pth "/real/x.kicad_sch" ∈ collected_files c),
              warnings c))
     = Some (1, 2, 1, true, true, [])
  /\ (hierarchy_walk sample_repr fs_link
        (_collect_core_files fs_link (init "/link/x.kicad_pcb"))
      ≫= fun w => Some (walk_reads w))
     = Some [pth "/link/x.kicad_sch"; pth "/link/b.kicad_sch"].
Proof.
  split; [|split; [|split; [|split; vm_compute; reflexivity]]].
  - intros list_repr fs c.
    destruct (hierarchy_walk_total list_repr fs c) as [w Hw]. exists w. split; [done|].
    apply (steps_reads_once fs _ _ (hierarchy_walk_steps list_repr fs c w Hw)).
    split; [constructor|]. intros q Hq. by apply elem_of_nil in Hq.
  - intros list_repr fs c A B A' fA fB contentA contentB treeA treeB sheetA sheetB
      HA Hne HexA HrA HpA HsA HfB HB HexB HrB HpB HsB HfA HA' HexA' HresA'.
    assert (Hsize : 2 <= size (fs_files fs)).
    { pose proof (fs_exists_resolve fs _ HexA) as H1.
      pose proof (fs_exists_resolve fs _ HexB) as H2.
      assert (Hsub : ({[fs_resolve fs A; fs_resolve fs B]} : gset Path) ⊆ fs_files fs)
        by set_solver.
      apply subseteq_size in Hsub.
      rewrite size_union in Hsub by set_solver.
      by rewrite !size_singleton in Hsub. }
    unfold _collect_schematic_hierarchy, hierarchy_walk, walk_fuel.
    rewrite <- HA, HexA. cbn [negb].
    destruct (size (fs_files fs)) as [|[|n]]; [lia|lia|].
    rewrite (walk_two_file_cycle list_repr fs n (mkWalk c ∅ []) A B A' fA fB
               contentA contentB treeA treeB sheetA sheetB); try done.
    eexists. split; [done|]. simpl. split; [set_solver|].
    split; [done|]. split; [done|].
    intros Hcanon HidA HidB. unfold entries_for.
    assert (HsetA : filter (fun p => fs_resolve fs p = fs_resolve fs A)
                      ({[fs_resolve fs A]} ∪ ({[fs_resolve fs B]} ∪ collected_files c))
                    = ({[fs_resolve fs A]} : gset Path)).
    { apply set_eq. intros p.
      rewrite elem_of_filter, !elem_of_union, !elem_of_singleton. split.
      - intros [Hres [->|[->|Hin]]]; [done|congruence|].
        by rewrite <- Hres, (Hcanon p Hin).
      - intros ->. split; [done|by left]. }
    assert (HsetB : filter (fun p => fs_resolve fs p = fs_resolve fs B)
                      ({[fs_resolve fs A]} ∪ ({[fs_resolve fs B]} ∪ collected_files c))
                    = ({[fs_resolve fs B]} : gset Path)).
    { apply set_eq. intros p.
      rewrite elem_of_filter, !elem_of_union, !elem_of_singleton. split.
      - intros [Hres [->|[->|Hin]]]; [congruence|done|].
        by rewrite <- Hres, (Hcanon p Hin).
      - intros ->. split; [done|by right; left]. }
    rewrite HsetA, HsetB. by rewrite !size_singleton.
  - assert (Hrun :
      (collect_all sample_repr fs_cycle (init "/p/x.kicad_pcb") ≫= fun c =>
         Some (bool_decide
                 (collected_files c
                  = {[pth "/p/x.kicad_pcb"; pth "/p/x.kicad_pro";
                      pth "/p/x.kicad_sch"; pth "/p/b.kicad_sch"]}),
               size (collected_files c), warnings c))
      = Some (true, 4, [])) by (vm_compute; reflexivity).
    destruct (collect_all sample_repr fs_cycle (init "/p/x.kicad_pcb")) as [c|];
      [|discriminate Hrun].
    cbn [mbind option_bind] in Hrun. injection Hrun as Hset Hsize Hlog.
    exists c. split; [reflexivity|]. apply bool_decide_eq_true in Hset. done.
Qed.

Lemma hierarchy_walk_terminates_once_witness :
  exists c',
    _collect_schematic_hierarchy sample_repr fs_cycle
      (_collect_core_files fs_cycle (init "/p/x.kicad_pcb")) = Some c'
    /\ collected_files c'
       = {[fs_resolve fs_cycle (pth "/p/x.kicad_sch");
           fs_resolve fs_cycle (pth "/p/b.kicad_sch")]}
         ∪ collected_files (_collect_core_files fs_cycle (init "/p/x.kicad_pcb"))
    /\ warnings c' = warnings (_collect_core_files fs_cycle (init "/p/x.kicad_pcb"))
    /\ (hierarchy_walk sample_repr fs_cycle
          (_collect_core_files fs_cycle (init "/p/x.kicad_pcb"))
        ≫= fun w => Some (walk_reads w))
       = Some [pth "/p/x.kicad_sch"; pth "/p/b.kicad_sch"]
    /\ size (entries_for fs_cycle (pth "/p/x.kicad_sch") (collected_files c')) = 1
    /\ size (entries_for fs_cycle (pth "/p/b.kicad_sch") (collected_files c')) = 1.
Proof.
  destruct (proj1 (proj2 hierarchy_walk_terminates_once)
           sample_repr fs_cycle (_collect_core_files fs_cycle (init "/p/x.kicad_pcb"))
           (pth "/p/x.kicad_sch") (pth "/p/b.kicad_sch") (pth "/p/x.kicad_sch")
           "x.kicad_sch" "b.kicad_sch"
           (schematic_with_sheet "b.kicad_sch") (schematic_with_sheet "x.kicad_sch")
           (SList [Atom "kicad_sch";
                   SList [Atom "sheet"; SList [Atom "at"; Atom "0"; Atom "0"];
                          SList [Atom "property"; Atom "Sheetfile"; Atom "b.kicad_sch"]]])
           (SList [Atom "kicad_sch";
                   SList [Atom "sheet"; SList [Atom "at"; Atom "0"; Atom "0"];
                          SList [Atom "property"; Atom "Sheetfile"; Atom "x.kicad_sch"]]])
           (SList [Atom "sheet"; SList [Atom "at"; Atom "0"; Atom "0"];
                   SList [Atom "property"; Atom "Sheetfile"; Atom "b.kicad_sch"]])
           (SList [Atom "sheet"; SList [Atom "at"; Atom "0"; Atom "0"];
                   SList [Atom "property"; Atom "Sheetfile"; Atom "x.kicad_sch"]]))
    as (c' & Hrun & Hset & Hlog & Hreads & Honce);
    try (vm_compute; reflexivity).
  { vm_compute. intros H. discriminate H. }
  exists c'. split; [exact Hrun|]. split; [exact Hset|]. split; [exact Hlog|].
  split; [exact Hreads|].
  apply Honce; [intros p _; reflexivity|reflexivity|reflexivity].
Defined.

(** ** Missing files *)

Lemma core_files_fields (fs : FileSystem) (c : Collector) :
  project_dir (_collect_core_files fs c) = project_dir c
  /\ project_name (_collect_core_files fs c) = project_name c.
Proof.
  unfold _collect_core_files.
  repeat (match goal with |- context [if ?b then _ else _] => destruct b end); done.
Qed.


Lemma init_sibling_name (pcb ext : string) (dir : Path) :
  has_slash ext = false -> 2 <= String.length ext ->
  PurePath.name (PurePath.join_str dir (project_name (init pcb) +:+ ext))
  = project_name (init pcb) +:+ ext.
Proof. intros He Hl. apply sibling_name; [apply stem_no_slash|done|done]. Qed.



(** ** Library URIs *)

Lemma prefix_app (old rest : string) : String.prefix old (old +:+ rest) = true.
Proof.
  induction old as [|a old IH]; simpl; [by destruct rest|].
  by destruct (ascii_dec a a).
Qed.

Lemma replace_from_skip (old new x rest : string) :
  PyStr.replace_from old new (String.length x) (x +:+ rest)
  = PyStr.replace_from old new 0 rest.
Proof.
  induction x as [|c x IH]; simpl; [|done].
  destruct rest; done.
Qed.

(** A match at the very start is replaced, and the search goes on after
    it. *)
Lemma replace_leading (a : ascii) (old' new rest : string) :
  PyStr.replace (String a old') new (String a old' +:+ rest)
  = new +:+ PyStr.replace (String a old') new rest.
Proof.
  unfold PyStr.replace.
  change (String a old' +:+ rest) with (String a (old' +:+ rest)).
  cbn [PyStr.replace_from].
  change (String a (old' +:+ rest)) with (String a old' +:+ rest).
  rewrite prefix_app.
  replace (String.length (String a old') - 1) with (String.length old')
    by (simpl; lia).
  by rewrite replace_from_skip.
Qed.

Lemma replace_backslash (s : string) : PyStr.replace BS "/" s = forward_slashes s.
Proof.
  unfold PyStr.replace, BS.
  induction s as [|c s IH]; [done|].
  cbn [PyStr.replace_from forward_slashes String.length Nat.sub].
  rewrite prefix_one.
  destruct (Ascii.eqb c backslash); [|by rewrite IH].
  change ("/" +:+ ?x) with (String "/" x). by rewrite IH.
Qed.

(** C7: a URI that starts with the KiCad system prefix is skipped, and its
    library entry leaves the collector as it was; otherwise a URI that
    starts with the project placeholder has it replaced by the project
    directory, backslashes become forward slashes, and the path read from
    the result is taken from the project directory when it is relative and
    kept when it is absolute.  Under the project directory [/proj] the
    placeholder followed by [/libs/foo.kicad_sym] resolves to
    [/proj/libs/foo.kicad_sym]. *)
Theorem resolve_lib_path_policy :
  (forall c uri,
      PyStr.startswith "${KICAD" uri = true -> _resolve_lib_path c uri = None)
  /\ (forall list_repr fs c lib uri,
      truthy (get_element_value list_repr lib "uri") = Some uri ->
      PyStr.startswith "${KICAD" uri = true ->
      lib_step list_repr fs c lib = c)
  /\ (forall c rest,
      _resolve_lib_path c ("${KIPRJMOD}" +:+ rest)
      = Some (from_project_dir c
                (PurePath.of_string
                   (forward_slashes
                      (PurePath.to_string (project_dir c)
                       +:+ PyStr.replace "${KIPRJMOD}"
                             (PurePath.to_string (project_dir c)) rest)))))
  /\ (forall c uri,
      PyStr.startswith "${KICAD" uri = false ->
      PyStr.startswith "${KIPRJMOD}" uri = false ->
      _resolve_lib_path c uri
      = Some (from_project_dir c (PurePath.of_string (forward_slashes uri))))
  /\ (_resolve_lib_path (init "/proj/x.kicad_pcb") "${KIPRJMOD}/libs/foo.kicad_sym"
      = Some (PurePath.of_string "/proj/libs/foo.kicad_sym")
      /\ (PurePath.to_string <$>
            _resolve_lib_path (init "/proj/x.kicad_pcb") "${KIPRJMOD}/libs/foo.kicad_sym")
         = Some "/proj/libs/foo.kicad_sym"
      /\ _resolve_lib_path (init "/proj/x.kicad_pcb") "${KICAD7_SYMBOL_DIR}/foo.kicad_sym"
         = None).
Proof.
  assert (Hgeneral : forall c uri,
    PyStr.startswith "${KICAD" uri = false ->
    _resolve_lib_path c uri
    = Some (from_project_dir c
              (PurePath.of_string
                 (forward_slashes
                    (if PyStr.startswith "${KIPRJMOD}" uri
                     then PyStr.replace "${KIPRJMOD}"
                            (PurePath.to_string (project_dir c)) uri
                     else uri))))).
  { intros c uri Hsys. unfold _resolve_lib_path, from_project_dir, PurePath.join.
    rewrite Hsys, replace_backslash.
    by destruct (PurePath.is_absolute _). }
  split; [|split; [|split; [|split]]].
  - intros c uri Hsys. unfold _resolve_lib_path. by rewrite Hsys.
  - intros list_repr fs c lib uri Huri Hsys. unfold lib_step, _resolve_lib_path.
    by rewrite Huri, Hsys.
  - intros c rest. rewrite Hgeneral.
    + unfold PyStr.startswith. rewrite prefix_app.
      by rewrite (replace_leading "$" "{KIPRJMOD}").
    + unfold PyStr.startswith. simpl.
      repeat (match goal with
              | |- context [ascii_dec ?x ?y] => destruct (ascii_dec x y); try done
              end); done.
  - intros c uri Hsys Hprj. rewrite Hgeneral by done. by rewrite Hprj.
  - split; [vm_compute; reflexivity|]. split; vm_compute; reflexivity.
Qed.

Lemma resolve_lib_path_policy_witness :
  _resolve_lib_path (init "/proj/x.kicad_pcb") "${KICAD_SYMBOL_DIR}/device.kicad_sym" = None
  /\ _resolve_lib_path (init "/proj/x.kicad_pcb") ("libs" +:+ BS +:+ "foo.kicad_sym")
     = Some (from_project_dir (init "/proj/x.kicad_pcb")
               (PurePath.of_string (forward_slashes ("libs" +:+ BS +:+ "foo.kicad_sym")))).
Proof.
  destruct resolve_lib_path_policy as (Hskip & _ & _ & Hplain & _).
  split.
  - apply Hskip. reflexivity.
  - apply Hplain; reflexivity.
Defined.

(** ** Phase C: internal and external libraries *)

Lemma is_external_outside (fs : FileSystem) (c : Collector) (path : Path) :
  _is_external fs c path = true
  <-> ~ inside_subtree (fs_resolve fs (project_dir c)) (fs_resolve fs path).
Proof.
  unfold _is_external. rewrite <- relative_to_inside.
  destruct (PurePath.relative_to _ _) as [rel|].
  - split; [done|]. intros Hn. exfalso. apply Hn. by exists rel.
  - split; [|done]. intros _ [? [=]].
Qed.

(** The declared name of the sample entry is present and empty, and the
    library is recorded under its file name. *)
Lemma external_empty_name_counterexample : ~ external_recorded_under_declared_name.
Proof.
  intros Hclaim.
  specialize (Hclaim sample_repr fs_libs (init "/p/x.kicad_pcb") lib_empty_name
                "/ext/foo.kicad_sym" (pth "/ext/foo.kicad_sym") "").
  assert (Hrecorded :
    external_files (lib_step sample_repr fs_libs (init "/p/x.kicad_pcb") lib_empty_name)
      !! fs_resolve fs_libs (pth "/ext/foo.kicad_sym") = Some "foo.kicad_sym")
    by (vm_compute; reflexivity).
  rewrite Hclaim in Hrecorded; [discriminate Hrecorded| | | | |];
    vm_compute; reflexivity.
Qed.

(** C8 (amended): an existing library is external exactly when its
    resolved path is not in the directory subtree of the resolved project
    directory, compared component by component; an external library is put
    in the external map under its declared name when that name is present
    and not empty, else under the name of the file, leaves the collected
    set as it was and gets the destination [external_libs/] followed by the
    name of the resolved file; an internal library has its resolved path
    added to the collected set. *)
Theorem lib_step_classifies :
  (forall fs c path,
      _is_external fs c path = true
      <-> ~ inside_subtree (fs_resolve fs (project_dir c)) (fs_resolve fs path))
  /\ (forall list_repr fs c lib uri lib_path,
      truthy (get_element_value list_repr lib "uri") = Some uri ->
      _resolve_lib_path c uri = Some lib_path ->
      fs_exists fs lib_path = true ->
      _is_external fs c lib_path = true ->
      let c' := lib_step list_repr fs c lib in
      external_files c' !! fs_resolve fs lib_path
      = Some (match get_element_value list_repr lib "name" with
              | Some declared =>
                  if String.eqb declared "" then PurePath.name lib_path else declared
              | None => PurePath.name lib_path
              end)
      /\ collected_files c' = collected_files c
      /\ get_files_for_zip c' !! fs_resolve fs lib_path
         = Some ("external_libs/" +:+ PurePath.name (fs_resolve fs lib_path)))
  /\ (forall list_repr fs c lib uri lib_path,
      truthy (get_element_value list_repr lib "uri") = Some uri ->
      _resolve_lib_path c uri = Some lib_path ->
      fs_exists fs lib_path = true ->
      _is_external fs c lib_path = false ->
      let c' := lib_step list_repr fs c lib in
      collected_files c' = {[fs_resolve fs lib_path]} ∪ collected_files c
      /\ external_files c' = external_files c)
  /\ (_is_external fs_libs (init "/p/x.kicad_pcb") (pth "/p2/bar.kicad_sym") = true
      /\ String.prefix "/p" "/p2/bar.kicad_sym" = true).
Proof.
  split; [exact is_external_outside|]. split; [|split].
  - intros list_repr fs c lib uri lib_path Huri Hres Hex Hout c'.
    assert (Hstep : c' = add_external (fs_resolve fs lib_path)
                           (match truthy (get_element_value list_repr lib "name") with
                            | Some n => n
                            | None => PurePath.name lib_path
                            end) c).
    { unfold c', lib_step. by rewrite Huri, Hres, Hex, Hout. }
    rewrite Hstep. split; [|split].
    + simpl. rewrite lookup_insert_eq. f_equal.
      destruct (get_element_value list_repr lib "name") as [[|a declared]|]; done.
    + done.
    + rewrite get_files_for_zip_lookup. simpl.
      rewrite decide_True; [done|]. rewrite dom_insert_L. set_solver.
  - intros list_repr fs c lib uri lib_path Huri Hres Hex Hint c'.
    unfold c', lib_step. by rewrite Huri, Hres, Hex, Hint.
  - split; vm_compute; reflexivity.
Qed.

Lemma lib_step_classifies_witness :
  external_files (lib_step sample_repr fs_libs (init "/p/x.kicad_pcb") lib_empty_name)
    !! fs_resolve fs_libs (pth "/ext/foo.kicad_sym")
  = Some "foo.kicad_sym"
  /\ get_files_for_zip (lib_step sample_repr fs_libs (init "/p/x.kicad_pcb") lib_empty_name)
       !! fs_resolve fs_libs (pth "/ext/foo.kicad_sym")
     = Some "external_libs/foo.kicad_sym".
Proof.
  destruct (proj1 (proj2 lib_step_classifies)
              sample_repr fs_libs (init "/p/x.kicad_pcb") lib_empty_name
              "/ext/foo.kicad_sym" (pth "/ext/foo.kicad_sym"))
    as (Hname & _ & Hdest).
  - vm_compute; reflexivity.
  - vm_compute; reflexivity.
  - vm_compute; reflexivity.
  - vm_compute; reflexivity.
  - split; [exact Hname|exact Hdest].
Defined.

(** ** The archive mapping of a collected project *)

(** In [fs_outside] the sheet kept in [/q] is collected, it is not under the
    project directory, and its destination is its bare name. *)
Lemma root_relative_counterexample : ~ every_collected_file_root_relative.
Proof.
  intros Hclaim.
  specialize (Hclaim sample_repr fs_outside "/p/x.kicad_pcb").
  assert (Hrun :
    (collect_all sample_repr fs_outside (init "/p/x.kicad_pcb") ≫= fun c =>
       Some (bool_decide (pth "/q/sub.kicad_sch" ∈ collected_files c),
             PurePath.relative_to (pth "/q/sub.kicad_sch") (project_dir c),
             get_files_for_zip c !! pth "/q/sub.kicad_sch"))
    = Some (true, None, Some "sub.kicad_sch")) by (vm_compute; reflexivity).
  destruct (collect_all sample_repr fs_outside (init "/p/x.kicad_pcb")) as [c|];
    [|discriminate Hrun].
  cbn [mbind option_bind] in Hrun. injection Hrun as Hin Hrel Hdest.
  apply bool_decide_eq_true in Hin.
  destruct (Hclaim c eq_refl _ Hin) as (rel & Hrel' & _). congruence.
Qed.

(** C1: in every state of the collector, a member of the external map has
    the destination [external_libs/] followed by its file name, and a
    member of the collected set that is not in the external map and lies
    under the project directory has as destination its path relative to
    that directory.  But a run can collect a file that does not lie under
    the project directory: Phase B adds the sheet [/q/sub.kicad_sch] of
    [fs_outside] without the test Phase C makes with [_is_external]; its
    destination is then its bare file name, not a path relative to the
    project directory, and in [fs_same_name] it is the destination of the
    project's own [sub.kicad_sch] as well. *)
Theorem get_files_for_zip_destinations :
  (forall c p,
    (p ∈ dom (external_files c) ->
     get_files_for_zip c !! p = Some ("external_libs/" +:+ PurePath.name p))
    /\ (p ∈ collected_files c -> p ∉ dom (external_files c) ->
        (forall rel,
            PurePath.relative_to p (project_dir c) = Some rel ->
            get_files_for_zip c !! p = Some (PurePath.to_string rel)
            /\ PurePath.is_absolute rel = false
            /\ parts p = parts (project_dir c) ++ parts rel)
        /\ (inside_subtree (project_dir c) p ->
            exists rel, PurePath.relative_to p (project_dir c) = Some rel)
        /\ (PurePath.relative_to p (project_dir c) = None ->
            get_files_for_zip c !! p = Some (PurePath.name p))))
  /\ ~ every_collected_file_root_relative
  /\ (collect_all sample_repr fs_outside (init "/p/x.kicad_pcb") ≫= fun c =>
        Some (bool_decide (pth "/q/sub.kicad_sch" ∈ collected_files c),
              bool_decide (pth "/q/sub.kicad_sch" ∈ dom (external_files c)),
              _is_external fs_outside c (pth "/q/sub.kicad_sch"),
              PurePath.relative_to (pth "/q/sub.kicad_sch") (project_dir c),
              get_files_for_zip c !! pth "/q/sub.kicad_sch"))
     = Some (true, false, true, None, Some "sub.kicad_sch")
  /\ (collect_all sample_repr fs_same_name (init "/p/x.kicad_pcb") ≫= fun c =>
        Some (bool_decide (pth "/p/sub.kicad_sch" ∈ collected_files c),
              bool_decide (pth "/q/sub.kicad_sch" ∈ collected_files c),
              get_files_for_zip c !! pth "/p/sub.kicad_sch",
              get_files_for_zip c !! pth "/q/sub.kicad_sch"))
     = Some (true, true, Some "sub.kicad_sch", Some "sub.kicad_sch").
Proof.
  split; [|split; [exact root_relative_counterexample|split; vm_compute; reflexivity]].
  intros c p. split.
  - intros Hext. rewrite get_files_for_zip_lookup. by rewrite decide_True.
  - intros Hin Hnot.
    assert (Hlook : get_files_for_zip c !! p = Some (project_dest c p)).
    { rewrite get_files_for_zip_lookup.
      rewrite decide_False by done. by rewrite decide_True. }
    split; [|split].
    + intros rel Hrel. rewrite Hlook. unfold project_dest. rewrite Hrel.
      split; [done|]. apply relative_to_parts in Hrel as [Hroot Hparts].
      split; [|done]. unfold PurePath.is_absolute. by rewrite Hroot.
    + intros Hinside. by apply relative_to_inside.
    + intros Hrel. rewrite Hlook. unfold project_dest. by rewrite Hrel.
Qed.

Lemma get_files_for_zip_destinations_witness :
  get_files_for_zip (add_file (pth "/p/sub/a.kicad_sch") (init "/p/x.kicad_pcb"))
    !! pth "/p/sub/a.kicad_sch"
  = Some "sub/a.kicad_sch"
  /\ get_files_for_zip
       (add_external (pth "/ext/foo.kicad_sym") "foo" (init "/p/x.kicad_pcb"))
       !! pth "/ext/foo.kicad_sym"
     = Some "external_libs/foo.kicad_sym".
Proof.
  split.
  - destruct (proj1 get_files_for_zip_destinations
                (add_file (pth "/p/sub/a.kicad_sch") (init "/p/x.kicad_pcb"))
                (pth "/p/sub/a.kicad_sch")) as [_ Hcollected].
    destruct Hcollected as (Hrel & _ & _).
    + compute_done.
    + compute_done.
    + apply (Hrel (mkPath "" ["sub"; "a.kicad_sch"])). vm_compute; reflexivity.
  - destruct (proj1 get_files_for_zip_destinations
                (add_external (pth "/ext/foo.kicad_sym") "foo" (init "/p/x.kicad_pcb"))
                (pth "/ext/foo.kicad_sym")) as [Hext _].
    apply Hext. compute_done.
Defined.

(** ** Phase A keeps the paths as they are given *)

(** C2: opened through the symbolic link [/link], Phase A puts the paths
    under [/link] in the collected set as they are, while Phase B puts the
    resolved path [/real/x.kicad_sch] of the same schematic next to them:
    members that are not canonical, and two members for one file. *)
Theorem collected_files_not_canonical :
  (collect_all sample_repr fs_link (init "/link/x.kicad_pcb") ≫= fun c =>
     Some (bool_decide (pth "/link/x.kicad_sch" ∈ collected_files c),
           bool_decide (pth "/real/x.kicad_sch" ∈ collected_files c),
           bool_decide (fs_resolve fs_link (pth "/link/x.kicad_sch")
                        = fs_resolve fs_link (pth "/real/x.kicad_sch")),
           bool_decide (fs_resolve fs_link (pth "/link/x.kicad_sch")
                        = pth "/link/x.kicad_sch"),
           size (collected_files c)))
  = Some (true, true, true, false, 5)
  /\ bool_decide
       (collected_files (_collect_core_files fs_link (init "/link/x.kicad_pcb"))
        = {[pth "/link/x.kicad_pcb"; pth "/link/x.kicad_pro"; pth "/link/x.kicad_sch"]})
     = true.
Proof. split; vm_compute; reflexivity. Qed.

(** ** The end-to-end scenario of the specification *)

(** Five files collected, all with root-relative destinations, no external
    library and no warning. *)
Lemma end_to_end_scenario :
  (collect_all sample_repr fs_scenario (init "/p/x.kicad_pcb") ≫= fun c =>
     Some (bool_decide
             (collected_files c
              = {[pth "/p/x.kicad_pcb"; pth "/p/x.kicad_pro"; pth "/p/x.kicad_sch";
                  pth "/p/sub.kicad_sch"; pth "/p/mylib.kicad_sym"]}),
           bool_decide (external_files c = ∅),
           (fun p => get_files_for_zip c !! pth p)
             <$> ["/p/x.kicad_pcb"; "/p/x.kicad_pro"; "/p/x.kicad_sch";
                  "/p/sub.kicad_sch"; "/p/mylib.kicad_sym"],
           warnings c))
  = Some (true, true,
          [Some "x.kicad_pcb"; Some "x.kicad_pro"; Some "x.kicad_sch";
           Some "sub.kicad_sch"; Some "mylib.kicad_sym"],
          []).
Proof. vm_compute. reflexivity. Qed.

(** * Further properties *)

(** ** What a run of the collector adds *)

#[local] Instance grows_by_existing_preorder (fs : FileSystem) :
  PreOrder (grows_by_existing fs).
Proof.
  split.
  - intros a. unfold grows_by_existing. repeat split; try done.
    + exists []. by rewrite app_nil_r.
    + intros p Hp. by left.
    + intros p Hp. by left.
  - intros a b c (Hp1 & Hd1 & Hn1 & Hc1 & He1 & [m1 Hw1] & Hx1 & Hy1)
                 (Hp2 & Hd2 & Hn2 & Hc2 & He2 & [m2 Hw2] & Hx2 & Hy2).
    unfold grows_by_existing. repeat split; try congruence.
    + set_solver.
    + set_solver.
    + exists (m1 ++ m2). by rewrite Hw2, Hw1, app_assoc.
    + intros p Hp. destruct (Hx2 p Hp) as [Hb|Hnew]; [|by right]. by apply Hx1.
    + intros p Hp. destruct (Hy2 p Hp) as [Hb|Hnew]; [by apply Hy1|].
      right. by rewrite <- Hd1.
Qed.

Lemma grows_add_existing (fs : FileSystem) (c : Collector) (p : Path) :
  fs_exists fs p = true -> grows_by_existing fs c (add_file p c).
Proof.
  intros Hex. unfold grows_by_existing. simpl. repeat split; try done.
  - set_solver.
  - exists []. by rewrite app_nil_r.
  - intros q Hq. apply elem_of_union in Hq as [Hq|Hq]; [|by left].
    apply elem_of_singleton in Hq as ->. right. by left.
  - intros q Hq. by left.
Qed.

Lemma grows_add_resolved (fs : FileSystem) (c : Collector) (q : Path) :
  fs_exists fs q = true -> grows_by_existing fs c (add_file (fs_resolve fs q) c).
Proof.
  intros Hex. unfold grows_by_existing. simpl. repeat split; try done.
  - set_solver.
  - exists []. by rewrite app_nil_r.
  - intros p Hp. apply elem_of_union in Hp as [Hp|Hp]; [|by left].
    apply elem_of_singleton in Hp as ->. right. right. by apply fs_exists_resolve.
  - intros p Hp. by left.
Qed.

Lemma grows_warn (fs : FileSystem) (c : Collector) (msg : string) :
  grows_by_existing fs c (warn msg c).
Proof.
  unfold grows_by_existing. simpl. repeat split; try done.
  - by exists [msg].
  - intros p Hp. by left.
  - intros p Hp. by left.
Qed.

Lemma core_files_grows (fs : FileSystem) (c : Collector) :
  grows_by_existing fs c (_collect_core_files fs c).
Proof.
  unfold _collect_core_files.
  set (c1 := if fs_exists fs (pcb_path c) then add_file (pcb_path c) c else c).
  assert (H1 : grows_by_existing fs c c1).
  { unfold c1. destruct (fs_exists fs (pcb_path c)) eqn:E;
      [by apply grows_add_existing|reflexivity]. }
  set (pro := PurePath.join_str (project_dir c1) _).
  set (c2 := if fs_exists fs pro then add_file pro c1 else warn _ c1).
  assert (H2 : grows_by_existing fs c1 c2).
  { unfold c2. destruct (fs_exists fs pro) eqn:E;
      [by apply grows_add_existing|apply grows_warn]. }
  set (sch := PurePath.join_str (project_dir c2) _).
  assert (H3 : grows_by_existing fs c2
                 (if fs_exists fs sch then add_file sch c2
                  else warn ("Schematic file not found: " +:+ PurePath.name sch) c2)).
  { destruct (fs_exists fs sch) eqn:E; [by apply grows_add_existing|apply grows_warn]. }
  etrans; [exact H1|]. etrans; [exact H2|exact H3].
Qed.

Lemma steps_grow (fs : FileSystem) (w w' : Walk) :
  rtc (walk_step fs) w w' ->
  grows_by_existing fs (walk_collector w) (walk_collector w').
Proof.
  induction 1 as [w|w w1 w' Hstep _ IH]; [reflexivity|].
  etrans; [|exact IH]. destruct Hstep; simpl.
  - apply grows_warn.
  - reflexivity.
  - apply grows_warn.
  - by apply grows_add_resolved.
Qed.

Lemma lib_step_grows (list_repr : list SExpr -> string) (fs : FileSystem)
    (c : Collector) (lib : SExpr) :
  grows_by_existing fs c (lib_step list_repr fs c lib).
Proof.
  unfold lib_step.
  destruct (truthy (get_element_value list_repr lib "uri")) as [uri|]; [|reflexivity].
  destruct (_resolve_lib_path c uri) as [lib_path|]; [|reflexivity].
  destruct (fs_exists fs lib_path) eqn:Hex; [|apply grows_warn].
  destruct (_is_external fs c lib_path) eqn:Hext; [|by apply grows_add_resolved].
  apply is_external_outside in Hext.
  unfold grows_by_existing. simpl. repeat split; try done.
  - rewrite dom_insert_L. set_solver.
  - exists []. by rewrite app_nil_r.
  - intros p Hp. by left.
  - intros p Hp. rewrite dom_insert_L in Hp.
    apply elem_of_union in Hp as [Hp|Hp]; [|by left].
    apply elem_of_singleton in Hp as ->. right. split; [|done].
    by apply fs_exists_resolve.
Qed.

Lemma lib_loop_grows (list_repr : list SExpr -> string) (fs : FileSystem)
    (libs : list SExpr) :
  forall c, grows_by_existing fs c (fold_left (lib_step list_repr fs) libs c).
Proof.
  induction libs as [|lib libs IH]; intros c; simpl; [reflexivity|].
  etrans; [apply (lib_step_grows list_repr fs c lib)|apply IH].
Qed.

(** X1: a run of [collect_all] from any state returns, and only adds:
    what was collected stays collected, the log is extended at its end, the
    project fields are kept; every file it adds exists or is the resolved
    path of an existing file, and every external library it adds is an
    existing file outside the resolved project directory. *)
Theorem collect_all_only_adds :
  forall list_repr fs c,
    exists c', collect_all list_repr fs c = Some c' /\ grows_by_existing fs c c'.
Proof.
  intros list_repr fs c. unfold collect_all, _collect_schematic_hierarchy.
  destruct (hierarchy_walk_total list_repr fs (_collect_core_files fs c)) as [w Hw].
  rewrite Hw.
  pose proof (steps_grow fs _ _ (hierarchy_walk_steps list_repr fs _ _ Hw)) as HB.
  simpl in HB.
  assert (HC : exists c', _collect_symbol_libraries list_repr fs (walk_collector w) = Some c'
                          /\ grows_by_existing fs (walk_collector w) c').
  { unfold _collect_symbol_libraries.
    destruct (fs_exists fs (PurePath.join_str _ "sym-lib-table")); cbn [negb].
    2:{ eexists. split; [done|reflexivity]. }
    destruct (fs_read_text fs _) as [content|e].
    - destruct (parse_kicad_total content) as [tree ->].
      eexists. split; [done|]. apply lib_loop_grows.
    - eexists. split; [done|]. apply grows_warn. }
  destruct HC as (c' & Hc' & HC). exists c'. split; [done|].
  etrans; [apply core_files_grows|]. etrans; [exact HB|exact HC].
Qed.

(** ** The files the walk reads *)

Lemma steps_reads_exist (fs : FileSystem) (w w' : Walk) :
  rtc (walk_step fs) w w' ->
  (forall q, q ∈ walk_reads w -> fs_exists fs q = true) ->
  forall q, q ∈ walk_reads w' -> fs_exists fs q = true.
Proof.
  induction 1 as [w|w w1 w' Hstep _ IH]; [done|].
  intros Hall. apply IH. destruct Hstep; simpl; try done.
  intros q Hq. apply elem_of_app in Hq as [Hq|Hq]; [by apply Hall|].
  by apply list_elem_of_singleton in Hq as ->.
Qed.

(** X2: the walk of Phase B only reads files that exist, and it reads at
    most as many files as there are existing files. *)
Theorem hierarchy_walk_reads_bounded :
  forall list_repr fs c,
    exists w,
      hierarchy_walk list_repr fs c = Some w
      /\ (forall q, q ∈ walk_reads w -> fs_exists fs q = true)
      /\ List.length (walk_reads w) <= size (fs_files fs).
Proof.
  intros list_repr fs c.
  destruct (hierarchy_walk_total list_repr fs c) as [w Hw]. exists w.
  pose proof (hierarchy_walk_steps list_repr fs c w Hw) as Hsteps.
  assert (Hex : forall q, q ∈ walk_reads w -> fs_exists fs q = true).
  { apply (steps_reads_exist fs _ _ Hsteps). intros q Hq. by apply elem_of_nil in Hq. }
  split; [done|]. split; [done|].
  assert (Honce : reads_once fs (mkWalk c ∅ [])).
  { split; [constructor|]. intros q Hq. by apply elem_of_nil in Hq. }
  apply (steps_reads_once fs _ _ Hsteps) in Honce as [Hnd _].
  rewrite <- (length_fmap (fs_resolve fs)).
  apply (submseteq_length _ (elements (fs_files fs))).
  apply NoDup_submseteq; [done|].
  intros r Hr. apply list_elem_of_fmap in Hr as [q [-> Hq]].
  apply elem_of_elements, fs_exists_resolve. by apply Hex.
Qed.

(** ** The keys of the archive mapping *)

(** X3: the archive mapping has an entry for exactly the collected files
    and the external libraries. *)
Theorem get_files_for_zip_domain :
  forall c, dom (get_files_for_zip c) = collected_files c ∪ dom (external_files c).
Proof.
  intros c. apply set_eq. intros p.
  rewrite elem_of_dom, get_files_for_zip_lookup, elem_of_union.
  destruct (decide (p ∈ dom (external_files c))) as [Hext|Hext].
  { split; [by right|by eexists]. }
  destruct (decide (p ∈ collected_files c)) as [Hin|Hin].
  { split; [by left|by eexists]. }
  split; [by intros [? [=]]|]. by intros [?|?].
Qed.

(** ** Library paths *)

(** X4: a library URI is skipped only when it starts with the KiCad system
    prefix; and when the project directory is absolute, every path a URI
    resolves to is absolute. *)
Theorem resolve_lib_path_absolute :
  (forall c uri,
      _resolve_lib_path c uri = None <-> PyStr.startswith "${KICAD" uri = true)
  /\ (forall c uri p,
      PurePath.is_absolute (project_dir c) = true ->
      _resolve_lib_path c uri = Some p ->
      PurePath.is_absolute p = true).
Proof.
  split.
  - intros c uri. unfold _resolve_lib_path.
    destruct (PyStr.startswith "${KICAD" uri); [done|]. by split.
  - intros c uri p Habs. unfold _resolve_lib_path.
    destruct (PyStr.startswith "${KICAD" uri); [done|].
    intros [= <-].
    destruct (PurePath.is_absolute (PurePath.of_string _)) eqn:E; simpl; [done|].
    unfold PurePath.join. by rewrite E.
Qed.

Lemma resolve_lib_path_absolute_witness :
  PurePath.is_absolute (pth "/proj/libs/foo.kicad_sym") = true.
Proof.
  apply (proj2 resolve_lib_path_absolute (init "/proj/x.kicad_pcb") "libs/foo.kicad_sym"
           (pth "/proj/libs/foo.kicad_sym")).
  - vm_compute; reflexivity.
  - vm_compute; reflexivity.
Defined.

(** X5: a library entry processed twice leaves the collected set and the
    external map as after the first time. *)
Theorem lib_step_twice :
  forall list_repr fs c lib,
    let once := lib_step list_repr fs c lib in
    let twice := lib_step list_repr fs once lib in
    collected_files twice = collected_files once
    /\ external_files twice = external_files once.
Proof.
  intros list_repr fs c lib. cbv zeta.
  assert (Hres : forall c1 c2 uri, project_dir c1 = project_dir c2 ->
                   _resolve_lib_path c1 uri = _resolve_lib_path c2 uri).
  { intros c1 c2 uri Hd. unfold _resolve_lib_path. by rewrite Hd. }
  assert (Hext : forall c1 c2 p, project_dir c1 = project_dir c2 ->
                   _is_external fs c1 p = _is_external fs c2 p).
  { intros c1 c2 p Hd. unfold _is_external. by rewrite Hd. }
  destruct (truthy (get_element_value list_repr lib "uri")) as [uri|] eqn:Huri.
  2:{ assert (Honce : lib_step list_repr fs c lib = c)
        by (unfold lib_step; by rewrite Huri).
      by rewrite !Honce. }
  destruct (_resolve_lib_path c uri) as [lib_path|] eqn:Hp.
  2:{ assert (Honce : lib_step list_repr fs c lib = c)
        by (unfold lib_step; by rewrite Huri, Hp).
      by rewrite !Honce. }
  destruct (fs_exists fs lib_path) eqn:Hex.
  - destruct (_is_external fs c lib_path) eqn:He.
    + set (lib_name := match truthy (get_element_value list_repr lib "name") with
                       | Some n => n
                       | None => PurePath.name lib_path
                       end).
      assert (Honce : lib_step list_repr fs c lib
                      = add_external (fs_resolve fs lib_path) lib_name c)
        by (unfold lib_step; by rewrite Huri, Hp, Hex, He).
      rewrite Honce. unfold lib_step. rewrite Huri.
      rewrite (Hres _ c uri) by done. rewrite Hp, Hex.
      rewrite (Hext _ c lib_path) by done. rewrite He. simpl.
      split; [done|]. by rewrite insert_insert_eq.
    + assert (Honce : lib_step list_repr fs c lib = add_file (fs_resolve fs lib_path) c)
        by (unfold lib_step; by rewrite Huri, Hp, Hex, He).
      rewrite Honce. unfold lib_step. rewrite Huri.
      rewrite (Hres _ c uri) by done. rewrite Hp, Hex.
      rewrite (Hext _ c lib_path) by done. rewrite He. simpl.
      split; [set_solver|done].
  - assert (Honce : lib_step list_repr fs c lib = warn ("Library not found: " +:+ uri) c)
      by (unfold lib_step; by rewrite Huri, Hp, Hex).
    rewrite Honce. unfold lib_step. rewrite Huri.
    rewrite (Hres _ c uri) by done. by rewrite Hp, Hex.
Qed.

(** ** Files that cannot be read *)

Lemma append_assoc (a b c : string) : (a +:+ b) +:+ c = a +:+ (b +:+ c).
Proof.
  induction a as [|x a IH]; [done|].
  change (String x ((a +:+ b) +:+ c) = String x (a +:+ (b +:+ c))). by f_equal.
Qed.

Lemma symbol_libraries_grows (list_repr : list SExpr -> string) (fs : FileSystem)
    (c : Collector) :
  exists c', _collect_symbol_libraries list_repr fs c = Some c'
             /\ grows_by_existing fs c c'.
Proof.
  unfold _collect_symbol_libraries.
  destruct (fs_exists fs (PurePath.join_str _ "sym-lib-table")); cbn [negb].
  2:{ eexists. split; [done|reflexivity]. }
  destruct (fs_read_text fs _) as [content|e].
  - destruct (parse_kicad_total content) as [tree ->].
    eexists. split; [done|]. apply lib_loop_grows.
  - eexists. split; [done|]. apply grows_warn.
Qed.

Lemma core_files_has_schematic (fs : FileSystem) (c : Collector) :
  fs_exists fs (PurePath.join_str (project_dir c) (project_name c +:+ ".kicad_sch")) = true ->
  PurePath.join_str (project_dir c) (project_name c +:+ ".kicad_sch")
  ∈ collected_files (_collect_core_files fs c).
Proof.
  intros Hex. unfold _collect_core_files.
  set (c1 := if fs_exists fs (pcb_path c) then add_file (pcb_path c) c else c).
  assert (H1 : project_dir c1 = project_dir c /\ project_name c1 = project_name c)
    by (unfold c1; by destruct (fs_exists fs (pcb_path c))).
  destruct H1 as [Hd1 Hn1]. rewrite Hd1, Hn1.
  set (c2 := if fs_exists fs _ then add_file _ c1 else warn _ c1).
  assert (H2 : project_dir c2 = project_dir c /\ project_name c2 = project_name c).
  { unfold c2.
    destruct (fs_exists fs (PurePath.join_str (project_dir c)
                              (project_name c +:+ ".kicad_pro"))); simpl; by split. }
  destruct H2 as [Hd2 Hn2]. rewrite Hd2, Hn2, Hex. simpl. set_solver.
Qed.

(** X6: when the primary schematic exists and reading it fails, the run
    still returns; the schematic is in the collected set, it was read once,
    and the log holds the error with the name of the file and the message
    of the failure. *)
Theorem unreadable_schematic_is_reported :
  forall list_repr fs pcb e,
    let c0 := init pcb in
    let sch := PurePath.join_str (project_dir c0) (project_name c0 +:+ ".kicad_sch") in
    fs_exists fs sch = true ->
    fs_read_text fs sch = ReadError e ->
    exists c,
      collect_all list_repr fs c0 = Some c
      /\ sch ∈ collected_files c
      /\ ("Error parsing " +:+ project_name c0 +:+ ".kicad_sch: " +:+ e) ∈ warnings c
      /\ (hierarchy_walk list_repr fs (_collect_core_files fs c0) ≫= fun w =>
            Some (walk_reads w)) = Some [sch].
Proof.
  intros list_repr fs pcb e. cbv zeta.
  pose proof (init_sibling_name pcb ".kicad_sch" (project_dir (init pcb))
                eq_refl ltac:(simpl; lia)) as Hname.
  set (c0 := init pcb) in *.
  set (sch := PurePath.join_str (project_dir c0) (project_name c0 +:+ ".kicad_sch")) in *.
  intros Hex Hread.
  set (cA := _collect_core_files fs c0).
  destruct (core_files_fields fs c0) as [Hd Hn]. fold cA in Hd, Hn.
  assert (Hwalk : hierarchy_walk list_repr fs cA
                  = Some (mkWalk
                            (warn ("Error parsing " +:+ project_name c0
                                   +:+ ".kicad_sch: " +:+ e) cA)
                            ({[fs_resolve fs sch]} ∪ ∅) [sch])).
  { unfold hierarchy_walk, walk_fuel. rewrite Hd, Hn. fold sch. rewrite Hex.
    cbn [negb _parse_schematic_sheets walk_visited walk_reads walk_collector].
    rewrite decide_False by set_solver. rewrite Hex, Hread. cbn [negb app].
    by rewrite Hname, append_assoc. }
  destruct (symbol_libraries_grows list_repr fs
              (warn ("Error parsing " +:+ project_name c0 +:+ ".kicad_sch: " +:+ e) cA))
    as (c & Hc & Hgrow).
  destruct Hgrow as (_ & _ & _ & Hsub & _ & [more Hmore] & _).
  exists c. split; [|split; [|split]].
  - unfold collect_all, _collect_schematic_hierarchy. fold c0 cA. by rewrite Hwalk.
  - apply Hsub. simpl. by apply core_files_has_schematic.
  - rewrite Hmore. simpl. apply elem_of_app. left. apply elem_of_app. right.
    by apply list_elem_of_singleton.
  - by rewrite Hwalk.
Qed.

Lemma unreadable_schematic_is_reported_witness :
  exists c,
    collect_all sample_repr fs_unreadable (init "/p/x.kicad_pcb") = Some c
    /\ pth "/p/x.kicad_sch" ∈ collected_files c
    /\ ("Error parsing x.kicad_sch: invalid start byte") ∈ warnings c
    /\ (hierarchy_walk sample_repr fs_unreadable
          (_collect_core_files fs_unreadable (init "/p/x.kicad_pcb")) ≫= fun w =>
          Some (walk_reads w)) = Some [pth "/p/x.kicad_sch"].
Proof.
  apply (unreadable_schematic_is_reported sample_repr fs_unreadable "/p/x.kicad_pcb"
           "invalid start byte").
  - vm_compute; reflexivity.
  - vm_compute; reflexivity.
Defined.

(** * Further properties of the parser *)

(** ** Looking up records in an element *)

Lemma sexpr_eq_str_true (node : SExpr) (name : string) :
  sexpr_eq_str node name = true <-> node = Atom name.
Proof.
  destruct node as [value|items]; simpl; [|by split].
  rewrite String.eqb_eq. split; [by intros ->|by intros [= ->]].
Qed.

Lemma get_property_loop_spec (list_repr : list SExpr -> string)
    (property_name : string) (items : list SExpr) :
  match get_property_loop list_repr items property_name with
  | None => Forall (fun item => is_property_record property_name item = false) items
  | Some x =>
      exists pre v rest post,
        items = pre ++ SList (Atom "property" :: Atom property_name :: v :: rest) :: post
        /\ Forall (fun item => is_property_record property_name item = false) pre
        /\ x = py_str list_repr v
  end.
Proof.
  induction items as [|item items IH]; simpl; [constructor|].
  assert (Hskip :
    is_property_record property_name item = false ->
    match get_property_loop list_repr items property_name with
    | None => Forall (fun item => is_property_record property_name item = false)
                (item :: items)
    | Some x =>
        exists pre v rest post,
          item :: items
          = pre ++ SList (Atom "property" :: Atom property_name :: v :: rest) :: post
          /\ Forall (fun item => is_property_record property_name item = false) pre
          /\ x = py_str list_repr v
    end).
  { intros Hno. destruct (get_property_loop list_repr items property_name) as [x|].
    - destruct IH as (pre & v & rest & post & -> & Hpre & ->).
      exists (item :: pre), v, rest, post. split; [done|]. split; [by constructor|done].
    - by constructor. }
  destruct item as [value|[|i0 [|i1 [|i2 rest]]]]; try (by apply Hskip).
  destruct (sexpr_eq_str i0 "property" && sexpr_eq_str i1 property_name) eqn:Hm.
  - apply andb_true_iff in Hm as [H0 H1].
    apply sexpr_eq_str_true in H0 as ->. apply sexpr_eq_str_true in H1 as ->.
    exists [], i2, rest, items. split; [done|]. split; [constructor|done].
  - by apply Hskip.
Qed.

(** X7: [get_property] returns the third element, as a string, of the
    first child that is a list of at least three elements starting with the
    atom [property] and the wanted name; children that are atoms, shorter
    lists or other records are passed over, and when no child fits, or the
    element is an atom, the result is absent. *)
Theorem get_property_first_record :
  forall list_repr property_name,
    (forall value, get_property list_repr (Atom value) property_name = None)
    /\ (forall items,
          get_property list_repr (SList items) property_name = None
          <-> Forall (fun item => is_property_record property_name item = false) items)
    /\ (forall pre v rest post,
          Forall (fun item => is_property_record property_name item = false) pre ->
          get_property list_repr
            (SList (pre ++ SList (Atom "property" :: Atom property_name :: v :: rest)
                    :: post)) property_name
          = Some (py_str list_repr v)).
Proof.
  intros list_repr property_name. split; [done|].
  assert (Hfound : forall pre v rest post,
    Forall (fun item => is_property_record property_name item = false) pre ->
    get_property_loop list_repr
      (pre ++ SList (Atom "property" :: Atom property_name :: v :: rest) :: post)
      property_name
    = Some (py_str list_repr v)).
  { intros pre v rest post Hpre.
    induction Hpre as [|item pre Hitem _ IH]; simpl.
    - by rewrite !String.eqb_refl.
    - destruct item as [value|[|i0 [|i1 [|i2 rest']]]]; try done.
      simpl in Hitem. by rewrite Hitem. }
  split; [|exact Hfound].
  intros items. simpl.
  pose proof (get_property_loop_spec list_repr property_name items) as Hspec.
  destruct (get_property_loop list_repr items property_name) as [x|] eqn:E.
  - split; [done|]. intros Hall. exfalso.
    destruct Hspec as (pre & v & rest & post & -> & _ & _).
    apply Forall_app in Hall as [_ Hall]. inversion Hall as [|? ? Hbad _]; subst.
    simpl in Hbad. by rewrite !String.eqb_refl in Hbad.
  - by split.
Qed.

Lemma get_property_first_record_witness :
  get_property sample_repr
    (SList ([Atom "sheet"; SList [Atom "at"; Atom "0"; Atom "0"];
             SList [Atom "property"; Atom "Sheetname"; Atom "Power"]]
            ++ SList [Atom "property"; Atom "Sheetfile"; Atom "a.kicad_sch"; Atom "x"]
            :: [SList [Atom "property"; Atom "Sheetfile"; Atom "b.kicad_sch"]]))
    "Sheetfile"
  = Some "a.kicad_sch".
Proof.
  apply (proj2 (proj2 (get_property_first_record sample_repr "Sheetfile"))
           [Atom "sheet"; SList [Atom "at"; Atom "0"; Atom "0"];
            SList [Atom "property"; Atom "Sheetname"; Atom "Power"]]
           (Atom "a.kicad_sch") [Atom "x"]
           [SList [Atom "property"; Atom "Sheetfile"; Atom "b.kicad_sch"]]).
  repeat constructor.
Defined.

Lemma get_element_value_loop_spec (list_repr : list SExpr -> string)
    (key : string) (items : list SExpr) :
  match get_element_value_loop list_repr items key with
  | None => Forall (fun item => is_key_record key item = false) items
  | Some x =>
      exists pre v rest post,
        items = pre ++ SList (Atom key :: v :: rest) :: post
        /\ Forall (fun item => is_key_record key item = false) pre
        /\ x = py_str list_repr v
  end.
Proof.
  induction items as [|item items IH]; simpl; [constructor|].
  assert (Hskip :
    is_key_record key item = false ->
    match get_element_value_loop list_repr items key with
    | None => Forall (fun item => is_key_record key item = false) (item :: items)
    | Some x =>
        exists pre v rest post,
          item :: items = pre ++ SList (Atom key :: v :: rest) :: post
          /\ Forall (fun item => is_key_record key item = false) pre
          /\ x = py_str list_repr v
    end).
  { intros Hno. destruct (get_element_value_loop list_repr items key) as [x|].
    - destruct IH as (pre & v & rest & post & -> & Hpre & ->).
      exists (item :: pre), v, rest, post. split; [done|]. split; [by constructor|done].
    - by constructor. }
  destruct item as [value|[|i0 [|i1 rest]]]; try (by apply Hskip).
  destruct (sexpr_eq_str i0 key) eqn:Hm.
  - apply sexpr_eq_str_true in Hm as ->.
    exists [], i1, rest, items. split; [done|]. split; [constructor|done].
  - by apply Hskip.
Qed.

(** X8: [get_element_value] returns the second element, as a string, of
    the first child that is a list of at least two elements starting with
    the key; a record put in front of an element is found under its own key
    and hides nothing filed under another key; with no fitting child the
    result is absent. *)
Theorem get_element_value_first_record :
  forall list_repr key,
    (forall items,
        get_element_value list_repr (SList items) key = None
        <-> Forall (fun item => is_key_record key item = false) items)
    /\ (forall pre v rest post,
          Forall (fun item => is_key_record key item = false) pre ->
          get_element_value list_repr
            (SList (pre ++ SList (Atom key :: v :: rest) :: post)) key
          = Some (py_str list_repr v))
    /\ (forall other v rest items,
          other <> key ->
          get_element_value list_repr
            (SList (SList (Atom other :: v :: rest) :: items)) key
          = get_element_value list_repr (SList items) key).
Proof.
  intros list_repr key.
  assert (Hfound : forall pre v rest post,
    Forall (fun item => is_key_record key item = false) pre ->
    get_element_value_loop list_repr (pre ++ SList (Atom key :: v :: rest) :: post) key
    = Some (py_str list_repr v)).
  { intros pre v rest post Hpre.
    induction Hpre as [|item pre Hitem _ IH]; simpl.
    - by rewrite String.eqb_refl.
    - destruct item as [value|[|i0 [|i1 rest']]]; try done.
      simpl in Hitem. by rewrite Hitem. }
  split; [|split; [exact Hfound|]].
  - intros items. simpl.
    pose proof (get_element_value_loop_spec list_repr key items) as Hspec.
    destruct (get_element_value_loop list_repr items key) as [x|] eqn:E.
    + split; [done|]. intros Hall. exfalso.
      destruct Hspec as (pre & v & rest & post & -> & _ & _).
      apply Forall_app in Hall as [_ Hall]. inversion Hall as [|? ? Hbad _]; subst.
      simpl in Hbad. by rewrite String.eqb_refl in Hbad.
    + by split.
  - intros other v rest items Hne. simpl.
    by rewrite (proj2 (String.eqb_neq other key) Hne).
Qed.

Lemma get_element_value_first_record_witness :
  get_element_value sample_repr
    (SList ([Atom "lib"; SList [Atom "name"; Atom "mylib"]]
            ++ SList [Atom "uri"; Atom "a.kicad_sym"; Atom "x"]
            :: [SList [Atom "uri"; Atom "b.kicad_sym"]])) "uri"
  = Some "a.kicad_sym"
  /\ get_element_value sample_repr
       (SList (SList [Atom "name"; Atom "mylib"] :: [SList [Atom "uri"; Atom "u"]])) "uri"
     = get_element_value sample_repr (SList [SList [Atom "uri"; Atom "u"]]) "uri".
Proof.
  destruct (get_element_value_first_record sample_repr "uri") as (_ & Hfound & Hother).
  split.
  - apply (Hfound [Atom "lib"; SList [Atom "name"; Atom "mylib"]]
             (Atom "a.kicad_sym") [Atom "x"] [SList [Atom "uri"; Atom "b.kicad_sym"]]).
    repeat constructor.
  - apply (Hother "name" (Atom "mylib") [] [SList [Atom "uri"; Atom "u"]]).
    discriminate.
Defined.

(** ** The tokens *)

Lemma scan_atom_chars (s : string) :
  forall tok rest,
    scan_atom s = (tok, rest) ->
    all_chars (fun c => negb (is_delimiter c)) tok = true.
Proof.
  induction s as [|c r IH]; intros tok rest Hs; simpl in Hs.
  - by inversion Hs.
  - destruct (is_delimiter c) eqn:Hc; [by inversion Hs|].
    destruct (scan_atom r) as [t0 r0]. inversion Hs; subst. simpl.
    rewrite Hc. simpl. by eapply IH.
Qed.

Lemma tokenize_loop_shapes fuel :
  forall rest tokens result,
    tokenize_loop fuel rest tokens = Some result ->
    Forall (fun t => token_shape t = true) tokens ->
    Forall (fun t => token_shape t = true) result.
Proof.
  induction fuel as [|fuel IH]; intros rest tokens result Hrun Hok; [discriminate|].
  destruct rest as [|char rest']; simpl in Hrun; [by inversion Hrun; subst|].
  destruct (is_space char) eqn:Hsp; [by eapply IH|].
  destruct (Ascii.eqb char "(") eqn:Hop.
  { eapply IH; [done|]. apply Forall_app. split; [done|]. by repeat constructor. }
  destruct (Ascii.eqb char ")") eqn:Hcl.
  { eapply IH; [done|]. apply Forall_app. split; [done|]. by repeat constructor. }
  destruct (Ascii.eqb char dquote) eqn:Hdq.
  - destruct (scan_quoted rest') as [tok rest''].
    eapply IH; [done|]. apply Forall_app. split; [done|]. constructor; [|constructor].
    apply Ascii.eqb_eq in Hdq as ->. unfold token_shape, PyStr.startswith, DQ.
    rewrite prefix_one, Ascii.eqb_refl. by rewrite !orb_true_r.
  - assert (Hdelim : is_delimiter char = false)
      by (unfold is_delimiter; by rewrite Hsp, Hop, Hcl, Hdq).
    rewrite Hdelim in Hrun.
    destruct (scan_atom rest') as [tok rest''] eqn:Hscan.
    eapply IH; [done|]. apply Forall_app. split; [done|]. constructor; [|constructor].
    unfold token_shape. cbn [String.eqb all_chars]. rewrite Hdelim.
    rewrite (scan_atom_chars _ _ _ Hscan).
    replace (String.eqb (String char tok) "") with false by done.
    by rewrite !orb_true_r.
Qed.

(** X9: the tokenizer returns for every text, and each token is a
    parenthesis, a string that starts with a double quote, or a non-empty
    run of characters without whitespace, parenthesis or double quote; no
    token is empty. *)
Theorem tokenize_token_shapes :
  forall text,
    exists tokens,
      _tokenize text = Some tokens
      /\ Forall (fun t => token_shape t = true /\ t <> "") tokens.
Proof.
  intros text. destruct (tokenize_total text) as [tokens Htok]. exists tokens.
  split; [done|].
  pose proof (tokenize_loop_shapes _ _ _ _ Htok (List.Forall_nil _)) as Hall.
  eapply Forall_impl; [exact Hall|]. intros t Ht. split; [done|].
  intros ->. discriminate Ht.
Qed.

(** ** Whitespace *)

Lemma tokenize_loop_skip_space (ws : string) :
  forall fuel rest tokens,
    all_chars is_space ws = true ->
    tokenize_loop (String.length ws + fuel) (ws +:+ rest) tokens
    = tokenize_loop fuel rest tokens.
Proof.
  induction ws as [|c ws IH]; intros fuel rest tokens Hws; [done|].
  simpl in Hws. apply andb_true_iff in Hws as [Hc Hws].
  cbn [String.length Nat.add].
  change (String c ws +:+ rest) with (String c (ws +:+ rest)).
  cbn [tokenize_loop]. rewrite Hc. by apply IH.
Qed.

(** X10: whitespace in front of a text changes neither its tokens nor its
    parse, and a text made of whitespace only, the empty text included,
    parses to the empty list. *)
Theorem leading_whitespace_ignored :
  forall ws,
    all_chars is_space ws = true ->
    (forall text,
        _tokenize (ws +:+ text) = _tokenize text
        /\ parse_kicad (ws +:+ text) = parse_kicad text)
    /\ parse_kicad ws = Some (SList []).
Proof.
  intros ws Hws.
  assert (Htok : forall text, _tokenize (ws +:+ text) = _tokenize text).
  { intros text. unfold _tokenize. rewrite append_length.
    change (S (String.length ws + String.length text))
      with (S (String.length ws) + String.length text).
    replace (S (String.length ws) + String.length text)
      with (String.length ws + S (String.length text)) by lia.
    by apply tokenize_loop_skip_space. }
  split.
  - intros text. split; [done|]. unfold parse_kicad. by rewrite Htok.
  - assert (Hempty : ws = ws +:+ "").
    { clear. induction ws as [|c ws IH]; [done|].
      change (String c ws = String c (ws +:+ "")). by f_equal. }
    rewrite Hempty. unfold parse_kicad. by rewrite Htok.
Qed.

Lemma leading_whitespace_ignored_witness :
  parse_kicad (String " " (String "010" (String "009" "(a b)"))) = parse_kicad "(a b)"
  /\ parse_kicad (String " " (String "010" (String "009" ""))) = Some (SList []).
Proof.
  destruct (leading_whitespace_ignored (String " " (String "010" (String "009" ""))))
    as [Htext Hempty]; [reflexivity|].
  split; [apply (Htext "(a b)")|exact Hempty].
Defined.

(** ** Quoted strings without escapes *)

Lemma scan_quoted_plain (body : string) :
  all_chars plain_char body = true ->
  scan_quoted (body +:+ DQ) = (body +:+ DQ, "")
  /\ scan_quoted body = (body, "").
Proof.
  induction body as [|c body IH]; intros Hplain; [done|].
  simpl in Hplain. apply andb_true_iff in Hplain as [Hc Hplain].
  unfold plain_char in Hc. apply andb_true_iff in Hc as [Hq Hb].
  apply negb_true_iff in Hq, Hb.
  destruct (IH Hplain) as [IH1 IH2].
  change (String c body +:+ DQ) with (String c (body +:+ DQ)).
  cbn [scan_quoted]. by rewrite Hb, Hq, IH1, IH2.
Qed.

Lemma unescape_plain (body : string) :
  all_chars plain_char body = true -> unescape body = body.
Proof.
  induction body as [|c body IH]; intros Hplain; [done|].
  simpl in Hplain. apply andb_true_iff in Hplain as [Hc Hplain].
  unfold plain_char in Hc. apply andb_true_iff in Hc as [_ Hb].
  apply negb_true_iff in Hb. simpl. by rewrite Hb, IH.
Qed.

Lemma last_char_plain (body : string) (c : ascii) :
  all_chars plain_char body = true -> body <> "" ->
  PyStr.endswith_char dquote (String c body) = false.
Proof.
  unfold PyStr.endswith_char.
  revert c. induction body as [|d body IH]; intros c Hplain Hne; [done|].
  simpl in Hplain. apply andb_true_iff in Hplain as [Hd Hplain].
  destruct body as [|e body].
  - cbn [PyStr.last_char]. unfold plain_char in Hd. apply andb_true_iff in Hd as [Hq _].
    apply negb_true_iff in Hq. by rewrite Ascii.eqb_sym.
  - specialize (IH d Hplain ltac:(done)). exact IH.
Qed.

(** X11: a quoted string whose body has neither double quote nor backslash
    parses to the atom of its body, whitespace and parentheses included;
    without its closing quote, and with a non-empty body, it parses to an
    atom that still starts with the opening quote. *)
Theorem parse_kicad_plain_quoted :
  forall body,
    all_chars plain_char body = true ->
    parse_kicad (DQ +:+ body +:+ DQ) = Some (Atom body)
    /\ (body <> "" -> parse_kicad (DQ +:+ body) = Some (Atom (DQ +:+ body))).
Proof.
  intros body Hplain. destruct (scan_quoted_plain body Hplain) as [Hclosed Hopen].
  split.
  - unfold parse_kicad, _tokenize.
    change (DQ +:+ body +:+ DQ) with (String dquote (body +:+ DQ)).
    cbn [String.length tokenize_loop]. rewrite Hclosed.
    destruct (String.length (body +:+ DQ)) as [|n] eqn:Hlen.
    { rewrite append_length in Hlen. simpl in Hlen. lia. }
    cbn. change (String dquote (body +:+ DQ)) with (DQ +:+ body +:+ DQ).
    rewrite atom_value_quoted. by rewrite unescape_plain.
  - intros Hne. unfold parse_kicad, _tokenize.
    change (DQ +:+ body) with (String dquote body).
    cbn [String.length tokenize_loop]. rewrite Hopen.
    destruct (String.length body) as [|n] eqn:Hlen.
    { destruct body; [done|discriminate Hlen]. }
    cbn. unfold atom_value. by rewrite (last_char_plain body dquote Hplain Hne), andb_false_r.
Qed.

Lemma parse_kicad_plain_quoted_witness :
  parse_kicad (DQ +:+ "R1 (10k)" +:+ DQ) = Some (Atom "R1 (10k)")
  /\ parse_kicad (DQ +:+ "R1 (10k)") = Some (Atom (DQ +:+ "R1 (10k)")).
Proof.
  destruct (parse_kicad_plain_quoted "R1 (10k)") as [Hclosed Hopen]; [reflexivity|].
  split; [exact Hclosed|]. apply Hopen. discriminate.
Defined.

(** ** Matching parentheses *)

(** X12: a list whose opening parenthesis has a matching closing one ends
    there: the parser returns a list and the position just after the
    matching parenthesis, whatever follows. *)
Theorem parse_tokens_stops_at_match :
  forall (tokens : list string) pos n fuel,
    tokens !! pos = Some "(" ->
    close_at 0 (drop (S pos) tokens) = Some n ->
    2 * (List.length tokens - pos) + 1 <= fuel ->
    exists items, _parse_tokens fuel tokens pos = Some (SList items, pos + 1 + n).
Proof.
  intros tokens pos n fuel Htok Hclose Hfuel.
  destruct (proj1 (parse_enough_fuel tokens fuel) pos Hfuel) as [[r p] Hp].
  rewrite Hp.
  pose proof (lookup_lt_Some _ _ _ Htok) as Hlt.
  destruct fuel as [|fuel]; [discriminate|].
  simpl in Hp. rewrite Htok in Hp. simpl in Hp.
  destruct (parse_list_result _ _ _ _ _ _ Hp) as [items ->].
  apply (proj2 (parse_follows_nesting tokens fuel)) in Hp; [|lia].
  replace (pos + 1) with (S pos) in Hp by lia. rewrite Hclose in Hp. subst p.
  exists items. do 2 f_equal. lia.
Qed.

Lemma parse_tokens_stops_at_match_witness :
  exists items,
    _parse_tokens 15 ["("; "a"; "("; "b"; ")"; ")"; "c"] 0 = Some (SList items, 0 + 1 + 5).
Proof.
  apply (parse_tokens_stops_at_match ["("; "a"; "("; "b"; ")"; ")"; "c"] 0 5 15).
  - reflexivity.
  - reflexivity.
  - simpl. lia.
Defined.

(** * Further properties of the collector's set-up *)

(** ** The project name *)

Lemma rfind_dot_app (a ext : string) :
  PurePath.rfind_dot ext = None ->
  PurePath.rfind_dot (a +:+ String "." ext) = Some (String.length a).
Proof.
  intros Hext. induction a as [|c a IH].
  - simpl. by rewrite Hext.
  - change (String c a +:+ String "." ext) with (String c (a +:+ String "." ext)).
    cbn [PurePath.rfind_dot String.length]. by rewrite IH.
Qed.

Lemma substring_prefix (a b : string) :
  String.substring 0 (String.length a) (a +:+ b) = a.
Proof.
  induction a as [|c a IH]; simpl; [by destruct b|]. by rewrite IH.
Qed.

Lemma stem_of_name (p : Path) (base ext : string) :
  PurePath.name p = base +:+ String "." ext ->
  PurePath.rfind_dot ext = None -> base <> "" -> ext <> "" ->
  PurePath.stem p = base.
Proof.
  intros Hname Hext Hbase Hne. unfold PurePath.stem.
  rewrite Hname, rfind_dot_app by done.
  rewrite append_length. cbn [String.length].
  assert (H1 : Nat.ltb 0 (String.length base) = true).
  { apply Nat.ltb_lt. destruct base; [done|simpl; lia]. }
  assert (H2 : Nat.ltb (String.length base)
                 (String.length base + S (String.length ext) - 1) = true).
  { apply Nat.ltb_lt. destruct ext; [done|simpl; lia]. }
  rewrite H1, H2. cbn [andb]. apply substring_prefix.
Qed.

Lemma parent_join_single (dir : Path) (x : string) :
  has_slash x = false -> PurePath.keep_part x = true ->
  PurePath.parent (PurePath.join_str dir x) = dir.
Proof.
  intros Hs Hk. unfold PurePath.join_str. rewrite of_string_single by done.
  unfold PurePath.join, PurePath.is_absolute, PurePath.parent. simpl.
  destruct (parts dir ++ [x]) as [|y l] eqn:E.
  { by destruct (parts dir). }
  rewrite <- E, removelast_last. by destruct dir.
Qed.

(** X13: for a board file named [base.kicad_pcb] with a non-empty base,
    dots in the base included, the project name is the base; the project
    file and the schematic it looks for are named [base.kicad_pro] and
    [base.kicad_sch] and lie in the directory of the board file. *)
Theorem init_project_siblings :
  forall pcb base,
    PurePath.name (pcb_path (init pcb)) = base +:+ ".kicad_pcb" ->
    base <> "" ->
    project_name (init pcb) = base
    /\ project_dir (init pcb) = PurePath.parent (pcb_path (init pcb))
    /\ forall ext,
         ext = ".kicad_pro" \/ ext = ".kicad_sch" ->
         PurePath.name (PurePath.join_str (project_dir (init pcb)) (base +:+ ext))
         = base +:+ ext
         /\ PurePath.parent (PurePath.join_str (project_dir (init pcb)) (base +:+ ext))
            = project_dir (init pcb).
Proof.
  intros pcb base Hname Hbase.
  assert (Hstem : project_name (init pcb) = base).
  { simpl in *. by apply (stem_of_name _ base "kicad_pcb"). }
  split; [done|]. split; [done|].
  assert (Hslash : has_slash base = false).
  { rewrite <- Hstem. apply stem_no_slash. }
  intros ext Hext.
  assert (Hext' : has_slash ext = false /\ 2 <= String.length ext).
  { destruct Hext as [->| ->]; simpl; split; first [done|lia]. }
  destruct Hext' as [He Hl]. split.
  - by apply sibling_name.
  - apply parent_join_single.
    + by rewrite has_slash_app, Hslash, He.
    + unfold PurePath.keep_part.
      assert (Hlen : 2 <= String.length (base +:+ ext)) by (rewrite append_length; lia).
      destruct (String.eqb_spec (base +:+ ext) "") as [E|_];
        [rewrite E in Hlen; simpl in Hlen; lia|].
      destruct (String.eqb_spec (base +:+ ext) ".") as [E|_];
        [rewrite E in Hlen; simpl in Hlen; lia|done].
Qed.

Lemma init_project_siblings_witness :
  project_name (init "/home/u/my.board.kicad_pcb") = "my.board"
  /\ PurePath.name
       (PurePath.join_str (project_dir (init "/home/u/my.board.kicad_pcb"))
          ("my.board" +:+ ".kicad_sch"))
     = "my.board" +:+ ".kicad_sch".
Proof.
  destruct (init_project_siblings "/home/u/my.board.kicad_pcb" "my.board")
    as (Hname & _ & Hsib).
  - vm_compute; reflexivity.
  - discriminate.
  - split; [exact Hname|]. apply (Hsib ".kicad_sch"). right. reflexivity.
Defined.

(** * Further properties: the category summary and the archive *)

Lemma parts_leb_total (xs : list string) :
  forall ys, parts_leb xs ys = true \/ parts_leb ys xs = true.
Proof.
  induction xs as [|x xs IH]; intros [|y ys]; simpl; try (by left); try (by right).
  rewrite (String.compare_antisym y x).
  destruct (String.compare x y) eqn:E; simpl; [apply IH|by left|by right].
Qed.

#[local] Instance path_le_total : Total path_le.
Proof. intros p q. apply parts_leb_total. Qed.

Lemma fold_categorize_file (l : list Path) :
  forall result,
    fold_left categorize_file l result
    = mkCategories
        (project_files result ++ (PurePath.name <$> List.filter is_project_file l))
        (schematic_files result
           ++ (PurePath.name <$>
                 List.filter (fun p => negb (is_project_file p) && is_schematic_file p) l))
        (external_libraries result).
Proof.
  induction l as [|p l IH]; intros result; simpl.
  - rewrite !app_nil_r. by destruct result.
  - rewrite IH. unfold categorize_file.
    destruct (is_project_file p); simpl.
    + by rewrite <- app_assoc.
    + destruct (is_schematic_file p); simpl; [|done]. by rewrite <- app_assoc.
Qed.

Lemma fold_categorize_external (l : list Path) :
  forall result,
    fold_left categorize_external l result
    = mkCategories (project_files result) (schematic_files result)
        (external_libraries result ++ (PurePath.name <$> l)).
Proof.
  induction l as [|p l IH]; intros result; simpl.
  - rewrite app_nil_r. by destruct result.
  - rewrite IH. simpl. by rewrite <- app_assoc.
Qed.

Lemma schematic_not_project (p : Path) :
  is_schematic_file p = true -> is_project_file p = false.
Proof.
  unfold is_schematic_file, is_project_file. intros H.
  apply String.eqb_eq in H. by rewrite H.
Qed.

(** X14: the category summary lists, in the order of the sorted paths, the
    names of the collected files that end in [.kicad_pcb] or [.kicad_pro]
    under Project Files, of those that end in [.kicad_sch] under Schematic
    Files, and of all external libraries under External Libraries; a
    collected file with any other suffix is listed under no category, and a
    category without names is left out of the result. *)
Theorem get_files_by_category_lists :
  forall c,
    let cats := get_files_by_category c in
    exists files externals,
      Sorted path_le files /\ files ≡ₚ elements (collected_files c)
      /\ Sorted path_le externals /\ externals ≡ₚ elements (dom (external_files c))
      /\ category "Project Files" cats
         = (PurePath.name <$> List.filter is_project_file files)
      /\ category "Schematic Files" cats
         = (PurePath.name <$> List.filter is_schematic_file files)
      /\ category "External Libraries" cats = (PurePath.name <$> externals)
      /\ Forall (fun item => item.2 <> []) cats
      /\ sublist (cats.*1) ["Project Files"; "Schematic Files"; "External Libraries"].
Proof.
  intros c. cbv zeta.
  exists (sorted_paths (elements (collected_files c))),
         (sorted_paths (elements (dom (external_files c)))).
  split; [apply Sorted_merge_sort; apply _|].
  split; [apply merge_sort_Permutation|].
  split; [apply Sorted_merge_sort; apply _|].
  split; [apply merge_sort_Permutation|].
  unfold get_files_by_category.
  rewrite fold_categorize_external, fold_categorize_file. simpl.
  set (files := sorted_paths (elements (collected_files c))).
  set (externals := sorted_paths (elements (dom (external_files c)))).
  assert (Hsch : List.filter (fun p => negb (is_project_file p) && is_schematic_file p) files
                 = List.filter is_schematic_file files).
  { apply List.filter_ext. intros p. destruct (is_schematic_file p) eqn:E.
    - by rewrite (schematic_not_project p E).
    - by rewrite andb_false_r. }
  rewrite Hsch.
  destruct (PurePath.name <$> List.filter is_project_file files) as [|a la];
    destruct (PurePath.name <$> List.filter is_schematic_file files) as [|b lb];
    destruct (PurePath.name <$> externals) as [|e le]; simpl;
    repeat split; try done;
    try (repeat (constructor; [done|]); by constructor);
    repeat first [apply sublist_nil_l | apply sublist_skip | apply sublist_cons ].
Qed.

(** ** The archive of a run *)

(** X15: when every resolved path of an existing file is itself reported
    as existing, the archive written from the mapping of a run, on the
    file system the run has read, has an entry for every collected file
    and every external library, under the name the mapping gives it, and
    no other entry: the test [create_zip] makes before it writes a file
    passes over none of them. *)
Theorem create_zip_writes_every_file :
  forall list_repr fs pcb,
    (forall p, p ∈ fs_files fs -> fs_exists fs p = true) ->
    exists c,
      collect_all list_repr fs (init pcb) = Some c
      /\ (forall source name,
            (source, name) ∈ create_zip fs (get_files_for_zip c)
            <-> get_files_for_zip c !! source = Some name)
      /\ (forall source,
            source ∈ collected_files c ∪ dom (external_files c) ->
            exists name, (source, name) ∈ create_zip fs (get_files_for_zip c))
      /\ List.length (create_zip fs (get_files_for_zip c))
         = size (collected_files c ∪ dom (external_files c)).
Proof.
  intros list_repr fs pcb Hfiles.
  unfold collect_all, _collect_schematic_hierarchy.
  destruct (hierarchy_walk_total list_repr fs (_collect_core_files fs (init pcb)))
    as [w Hw].
  rewrite Hw.
  pose proof (steps_grow fs _ _ (hierarchy_walk_steps list_repr fs _ _ Hw)) as HB.
  simpl in HB.
  destruct (symbol_libraries_grows list_repr fs (walk_collector w)) as (c & Hc & HC).
  exists c. split; [done|].
  assert (Hgrows : grows_by_existing fs (init pcb) c).
  { etrans; [apply core_files_grows|]. etrans; [exact HB|exact HC]. }
  destruct Hgrows as (_ & _ & _ & _ & _ & _ & Hcollected & Hexternal).
  assert (Hdom : forall source,
            source ∈ collected_files c ∪ dom (external_files c)
            <-> is_Some (get_files_for_zip c !! source)).
  { intros source. rewrite get_files_for_zip_lookup, elem_of_union.
    destruct (decide (source ∈ dom (external_files c))) as [Hext|Hext].
    { split; [by eexists|by right]. }
    destruct (decide (source ∈ collected_files c)) as [Hin|Hin].
    { split; [by eexists|by left]. }
    split; [by intros [?|?]|by intros [? [=]]]. }
  assert (Hexists : forall source name,
            get_files_for_zip c !! source = Some name -> fs_exists fs source = true).
  { intros source name Hlook.
    assert (Hin : source ∈ collected_files c ∪ dom (external_files c))
      by (apply Hdom; by eexists).
    apply elem_of_union in Hin as [Hin|Hin].
    - destruct (Hcollected _ Hin) as [Hinit|[Hex|Hres]];
        [by apply elem_of_empty in Hinit|done|by apply Hfiles].
    - destruct (Hexternal _ Hin) as [Hinit|[Hres _]]; [|by apply Hfiles].
      simpl in Hinit. rewrite dom_empty in Hinit. by apply elem_of_empty in Hinit. }
  assert (Hmem : forall source name,
            (source, name) ∈ create_zip fs (get_files_for_zip c)
            <-> get_files_for_zip c !! source = Some name).
  { intros source name. unfold create_zip.
    rewrite list_elem_of_In, List.filter_In, <- list_elem_of_In, elem_of_map_to_list.
    split; [by intros [? _]|]. intros Hlook. split; [done|]. simpl. by eapply Hexists. }
  split; [exact Hmem|]. split.
  - intros source Hin. apply Hdom in Hin as [name Hname]. exists name. by apply Hmem.
  - assert (Hall : create_zip fs (get_files_for_zip c)
                   = map_to_list (get_files_for_zip c)).
    { unfold create_zip. apply forallb_filter_id. apply forallb_forall.
      intros [source name] Hin. apply list_elem_of_In, elem_of_map_to_list in Hin.
      simpl. by eapply Hexists. }
    rewrite Hall, length_map_to_list, <- size_dom. f_equal.
    apply set_eq. intros source. rewrite elem_of_dom. symmetry. apply Hdom.
Qed.

Lemma create_zip_writes_every_file_witness :
  exists c,
    collect_all sample_repr fs_scenario (init "/p/x.kicad_pcb") = Some c
    /\ List.length (create_zip fs_scenario (get_files_for_zip c))
       = size (collected_files c ∪ dom (external_files c)).
Proof.
  destruct (create_zip_writes_every_file sample_repr fs_scenario "/p/x.kicad_pcb")
    as (c & Hrun & _ & _ & Hlen).
  - intros p Hp. apply bool_decide_eq_true. exact Hp.
  - exists c. split; [exact Hrun|exact Hlen].
Defined.

(** * Further properties: reading back a written tree *)

Lemma append_nil_r (s : string) : s +:+ "" = s.
Proof.
  induction s as [|c s IH]; [done|].
  change (String c (s +:+ "") = String c s). by f_equal.
Qed.

Lemma tokenize_loop_fuel_mono fuel :
  forall fuel' rest tokens result,
    tokenize_loop fuel rest tokens = Some result -> fuel <= fuel' ->
    tokenize_loop fuel' rest tokens = Some result.
Proof.
  induction fuel as [|fuel IH]; intros [|fuel'] rest tokens result Hrun Hle;
    try discriminate; [lia|].
  destruct rest as [|char rest']; simpl in *; [done|].
  destruct (is_space char); [apply IH; [done|lia]|].
  destruct (Ascii.eqb char "("); [apply IH; [done|lia]|].
  destruct (Ascii.eqb char ")"); [apply IH; [done|lia]|].
  destruct (Ascii.eqb char dquote).
  - destruct (scan_quoted rest'). apply IH; [done|lia].
  - destruct (is_delimiter char); [|destruct (scan_atom rest')]; (apply IH; [done|lia]).
Qed.

Lemma not_delimiter (c : ascii) :
  is_delimiter c = false ->
  is_space c = false /\ Ascii.eqb c "(" = false /\ Ascii.eqb c ")" = false
  /\ Ascii.eqb c dquote = false.
Proof.
  unfold is_delimiter. intros H.
  apply orb_false_iff in H as [H Hq]. apply orb_false_iff in H as [H Hc].
  by apply orb_false_iff in H as [Hs Ho].
Qed.

Lemma scan_atom_plain (a rest : string) :
  all_chars (fun c => negb (is_delimiter c)) a = true ->
  starts_with_delimiter rest = true ->
  scan_atom (a +:+ rest) = (a, rest).
Proof.
  intros Ha Hrest. induction a as [|c a IH].
  - destruct rest as [|d rest]; [done|]. simpl in *. by rewrite Hrest.
  - simpl in Ha. apply andb_true_iff in Ha as [Hc Ha]. apply negb_true_iff in Hc.
    change (String c a +:+ rest) with (String c (a +:+ rest)).
    cbn [scan_atom]. by rewrite Hc, (IH Ha).
Qed.

(** One atom in front of a delimiter is one token. *)
Lemma tokenize_loop_atom (a rest : string) (tokens : list string) (fuel : nat) :
  plain_atom a = true -> starts_with_delimiter rest = true ->
  tokenize_loop (S fuel) (a +:+ rest) tokens = tokenize_loop fuel rest (tokens ++ [a]).
Proof.
  intros Ha Hrest. unfold plain_atom in Ha. apply andb_true_iff in Ha as [Hne Ha].
  destruct a as [|c a]; [done|].
  pose proof (scan_atom_plain (String c a) rest Ha Hrest) as Hscan.
  simpl in Ha. apply andb_true_iff in Ha as [Hc _]. apply negb_true_iff in Hc.
  destruct (not_delimiter c Hc) as (Hs & Ho & Hcl & Hq).
  change (String c a +:+ rest) with (String c (a +:+ rest)) in *.
  cbn [tokenize_loop]. by rewrite Hs, Ho, Hcl, Hq, Hscan.
Qed.

Lemma spaced_starts (others : list SExpr) (rest : string) :
  starts_with_delimiter (spaced to_text others +:+ String ")" rest) = true.
Proof. by destruct others. Qed.

(** The tokens of a written tree, whatever text follows it from a
    delimiter on. *)
Lemma tokenize_loop_to_text (t : SExpr) :
  plain_tree t = true ->
  forall rest tokens fuel result,
    starts_with_delimiter rest = true ->
    tokenize_loop fuel rest (tokens ++ to_tokens t) = Some result ->
    exists fuel', tokenize_loop fuel' (to_text t +:+ rest) tokens = Some result.
Proof.
  induction t as [a|items IH] using SExpr_forall_ind;
    intros Hplain rest tokens fuel result Hrest Hrun.
  - exists (S fuel). cbn [to_text to_tokens plain_tree] in *.
    by rewrite tokenize_loop_atom.
  - simpl in Hplain.
    assert (Hothers : forall others,
      Forall (fun t => plain_tree t = true ->
                forall rest tokens fuel result,
                  starts_with_delimiter rest = true ->
                  tokenize_loop fuel rest (tokens ++ to_tokens t) = Some result ->
                  exists fuel', tokenize_loop fuel' (to_text t +:+ rest) tokens
                                = Some result) others ->
      forallb plain_tree others = true ->
      forall tokens fuel,
        tokenize_loop fuel (String ")" rest) (tokens ++ flat_map to_tokens others)
        = Some result ->
        exists fuel',
          tokenize_loop fuel' (spaced to_text others +:+ String ")" rest) tokens
          = Some result).
    { intros others Hall. induction Hall as [|y l Hy _ IHl];
        intros Hpl tokens0 fuel0 Hrun0.
      - exists fuel0. simpl in *. by rewrite app_nil_r in Hrun0.
      - simpl in Hpl. apply andb_true_iff in Hpl as [Hpy Hpl].
        simpl in Hrun0. rewrite app_assoc in Hrun0.
        destruct (IHl Hpl _ _ Hrun0) as [f1 Hf1].
        destruct (Hy Hpy _ _ _ _ (spaced_starts l rest) Hf1) as [f2 Hf2].
        exists (S f2). cbn [spaced fold_right].
        change (fold_right (fun item rest => " " +:+ to_text item +:+ rest) "" l)
          with (spaced to_text l).
        rewrite !append_assoc.
        change (" " +:+ ?x) with (String " " x). cbn [tokenize_loop is_space].
        replace (is_space " ") with true by done.
        exact Hf2. }
    simpl in Hrun.
    change ("(" :: flat_map to_tokens items ++ [")"])
      with (["("] ++ flat_map to_tokens items ++ [")"]) in Hrun.
    rewrite !app_assoc in Hrun.
    assert (Hclose : tokenize_loop (S fuel) (String ")" rest)
                       ((tokens ++ ["("]) ++ flat_map to_tokens items) = Some result).
    { cbn [tokenize_loop]. replace (is_space ")") with false by done.
      cbn [Ascii.eqb]. simpl. exact Hrun. }
    destruct items as [|first others].
    + exists (S (S fuel)). simpl in *. rewrite app_nil_r in Hrun. exact Hrun.
    + inversion IH as [|? ? Hfirst Hrest_items]; subst.
      simpl in Hplain. apply andb_true_iff in Hplain as [Hpf Hpo].
      cbn [flat_map] in Hclose. rewrite app_assoc in Hclose.
      destruct (Hothers others Hrest_items Hpo _ _ Hclose) as [f1 Hf1].
      destruct (Hfirst Hpf _ _ _ _ (spaced_starts others rest) Hf1) as [f2 Hf2].
      exists (S f2). cbn [to_text].
      change ("(" +:+ ?x) with (String "(" x). cbn [String.append tokenize_loop].
      replace (is_space "(") with false by done. cbn [Ascii.eqb]. simpl.
      rewrite !append_assoc. exact Hf2.
Qed.

Lemma tokenize_to_text (t : SExpr) :
  plain_tree t = true -> _tokenize (to_text t) = Some (to_tokens t).
Proof.
  intros Hplain.
  destruct (tokenize_loop_to_text t Hplain "" [] 1 (to_tokens t) eq_refl eq_refl)
    as [fuel Hfuel].
  rewrite append_nil_r in Hfuel.
  destruct (tokenize_total (to_text t)) as [tokens Htok]. rewrite Htok.
  unfold _tokenize in Htok.
  set (big := Nat.max fuel (S (String.length (to_text t)))).
  pose proof (tokenize_loop_fuel_mono _ big _ _ _ Hfuel (Nat.le_max_l _ _)) as H1.
  pose proof (tokenize_loop_fuel_mono _ big _ _ _ Htok (Nat.le_max_r _ _)) as H2.
  congruence.
Qed.


(** A plain atom is not a parenthesis and has no quotes to strip. *)
Lemma plain_atom_token (a : string) :
  plain_atom a = true ->
  String.eqb a "(" = false /\ String.eqb a ")" = false /\ atom_value a = a.
Proof.
  unfold plain_atom. intros Ha. apply andb_true_iff in Ha as [_ Ha].
  destruct a as [|c a]; [done|].
  simpl in Ha. apply andb_true_iff in Ha as [Hc _]. apply negb_true_iff in Hc.
  destruct (not_delimiter c Hc) as (_ & Ho & Hcl & Hq).
  repeat split.
  - cbn [String.eqb]. by rewrite Ho.
  - cbn [String.eqb]. by rewrite Hcl.
  - unfold atom_value, PyStr.startswith, DQ. by rewrite prefix_one, Hq.
Qed.

(** The first token of a written tree is never a closing parenthesis. *)
Lemma to_tokens_head (t : SExpr) :
  plain_tree t = true ->
  exists first others,
    to_tokens t = first :: others /\ String.eqb first ")" = false.
Proof.
  destruct t as [a|items]; intros Hplain.
  - exists a, []. split; [done|]. by apply plain_atom_token.
  - by exists "(", (flat_map to_tokens items ++ [")"]).
Qed.

(** The parser, started on the tokens of a written tree, returns the tree
    and the position after its tokens, whatever tokens surround them. *)
Lemma parse_to_tokens (t : SExpr) :
  plain_tree t = true ->
  forall before after, exists fuel,
    _parse_tokens fuel (before ++ to_tokens t ++ after) (List.length before)
    = Some (t, List.length before + List.length (to_tokens t)).
Proof.
  induction t as [a|items IH] using SExpr_forall_ind; intros Hplain before after.
  - exists 1. cbn [to_tokens plain_tree _parse_tokens] in *.
    destruct (plain_atom_token a Hplain) as (Ho & Hc & Hv).
    rewrite lookup_app_r, Nat.sub_diag by lia. simpl.
    rewrite Ho, Hc, Hv. f_equal; f_equal; lia.
  - simpl in Hplain.
    assert (Hitems : forall items,
      Forall (fun t => plain_tree t = true ->
                forall before after, exists fuel,
                  _parse_tokens fuel (before ++ to_tokens t ++ after)
                    (List.length before)
                  = Some (t, List.length before + List.length (to_tokens t)))
             items ->
      forallb plain_tree items = true ->
      forall before after result, exists fuel,
        parse_list fuel (before ++ flat_map to_tokens items ++ ")" :: after)
          (List.length before) result
        = Some (SList (result ++ items),
                List.length before + List.length (flat_map to_tokens items) + 1)).
    { clear. intros items Hall. induction Hall as [|y l Hy _ IHl];
        intros Hpl before after result.
      - exists 1. cbn [flat_map app parse_list].
        rewrite lookup_app_r, Nat.sub_diag by lia. simpl.
        rewrite app_nil_r. f_equal; f_equal; lia.
      - simpl in Hpl. apply andb_true_iff in Hpl as [Hpy Hpl].
        destruct (to_tokens_head y Hpy) as (first & others & Hhead & Hnc).
        destruct (Hy Hpy before (flat_map to_tokens l ++ ")" :: after)) as [f1 Hf1].
        destruct (IHl Hpl (before ++ to_tokens y) after (result ++ [y])) as [f2 Hf2].
        exists (S (Nat.max f1 f2)).
        cbn [flat_map]. rewrite <- !app_assoc. cbn [parse_list].
        rewrite <- !app_assoc in Hf2.
        set (tokens := before ++ to_tokens y ++ flat_map to_tokens l ++ ")" :: after)
          in *.
        assert (Hlook : tokens !! List.length before = Some first).
        { unfold tokens. rewrite lookup_app_r, Nat.sub_diag by lia.
          by rewrite Hhead. }
        rewrite Hlook, Hnc.
        rewrite (proj1 (parse_fuel_mono tokens f1) _ _ _ Hf1 (Nat.le_max_l _ _)).
        rewrite List.length_app in Hf2.
        rewrite (proj2 (parse_fuel_mono tokens f2) _ _ _ _ Hf2 (Nat.le_max_r _ _)).
        rewrite List.length_app. f_equal; f_equal; simpl; lia. }
    destruct (Hitems items IH Hplain (before ++ ["("]) after []) as [fuel Hfuel].
    exists (S fuel). cbn [to_tokens _parse_tokens].
    rewrite <- !app_assoc in Hfuel. cbn [app] in Hfuel |- *.
    rewrite <- !app_assoc. cbn [app].
    rewrite lookup_app_r, Nat.sub_diag by lia. cbn [lookup list_lookup String.eqb].
    simpl String.eqb. cbn iota.
    rewrite List.length_app in Hfuel. simpl List.length in Hfuel.
    rewrite Hfuel. simpl. rewrite List.length_app. simpl. f_equal; f_equal; lia.
Qed.

(** X17: a tree whose atoms are non-empty and free of whitespace,
    parentheses and double quotes, written as text with its lists in
    parentheses and their items one space apart, is read back by
    [parse_kicad] as the same tree. *)
Theorem parse_kicad_reads_back (t : SExpr) :
  plain_tree t = true -> parse_kicad (to_text t) = Some t.
Proof.
  intros Hplain. unfold parse_kicad.
  rewrite (tokenize_to_text t Hplain). cbn [mbind option_bind].
  destruct (parse_to_tokens t Hplain [] []) as [fuel Hfuel].
  rewrite app_nil_r in Hfuel. cbn [app List.length] in Hfuel.
  destruct (parse_tokens_total (to_tokens t)) as [[r p] Hrun]. rewrite Hrun.
  set (big := Nat.max fuel (parse_fuel (to_tokens t))).
  pose proof (proj1 (parse_fuel_mono _ _) big _ _ Hfuel (Nat.le_max_l _ _)) as H1.
  pose proof (proj1 (parse_fuel_mono _ _) big _ _ Hrun (Nat.le_max_r _ _)) as H2.
  simpl. congruence.
Qed.

Lemma parse_kicad_reads_back_witness :
  plain_tree (SList [Atom "lib"; SList [Atom "name"; Atom "parts"]; SList []]) = true
  /\ parse_kicad "(lib (name parts) ())"
     = Some (SList [Atom "lib"; SList [Atom "name"; Atom "parts"]; SList []]).
Proof.
  split; [vm_compute; reflexivity|].
  exact (parse_kicad_reads_back
           (SList [Atom "lib"; SList [Atom "name"; Atom "parts"]; SList []]) eq_refl).
Defined.

(** * Incomplete input *)






